(** * Viewport and annotation engine of the bounding-box annotator (src/src/App.jsx)

    A shallow embedding of the viewport transform, pan clamping, surface
    sizing and annotation store of [App.jsx], with the properties stated about
    them.

    Numbers.  A JavaScript number is modelled by [num]: an exact rational, or
    one of the three special values [Infinity], [-Infinity] and [NaN], with the
    IEEE rules for the special values (so [0 * Infinity] and [0 / 0] are
    [NaN], [1 / 0] is [Infinity], every comparison with [NaN] is false and
    [Math.min]/[Math.max] return [NaN] as soon as one argument is [NaN]).
    Rounding error, overflow and the sign of zero are not modelled; every zero
    divisor of this program (a canvas dimension, a natural image size) is a
    positive zero.  The code computes in binary floating point, so one of its
    intermediate results can differ from the rational here in its last
    digits, and a [Math.round] or [toFixed] of a value that lies half-way, or
    within such a difference of half-way, can come out on the other side.
    The properties are stated so that they do not depend on the side: a
    rounded value is pinned to within a half of what is rounded, or between
    its floor and its ceiling, two roundings of the same value are compared
    up to one unit, and equalities are stated between the expressions the
    code itself evaluates.

    Integers of the DOM ([clientWidth], [canvas.width], [naturalWidth]) are
    [Z] or [N]; what the browser supplies to a handler (the device pixel
    ratio, the bounding rectangle of the canvas, the coordinates and deltas of
    an event) is a finite rational.

    React.  A [useState] cell and a [useRef] cell are both fields of [State];
    a state setter takes effect at once, and the deferred redraw
    ([requestAnimationFrame(draw)]) does not change the state. *)

From Stdlib Require Import QArith Qround Qabs ZArith List String Bool Lia Lqa.
From Stdlib Require Import DecimalString.
Import ListNotations.

Open Scope Q_scope.

(** ** JavaScript numbers *)

Inductive num : Type :=
| Fin (q : Q)
| PInf
| NInf
| NaN.

Declare Scope num_scope.
Delimit Scope num_scope with num.
Bind Scope num_scope with num.

Definition of_Z (k : Z) : num := Fin (inject_Z k).
Definition of_N (n : N) : num := of_Z (Z.of_N n).

(** The infinity of a given sign; a zero sign gives [NaN]. *)
Definition signed_inf (c : comparison) : num :=
  match c with
  | Gt => PInf
  | Lt => NInf
  | Eq => NaN
  end.

Definition nopp (a : num) : num :=
  match a with
  | Fin x => Fin (- x)
  | PInf => NInf
  | NInf => PInf
  | NaN => NaN
  end.

Definition nadd (a b : num) : num :=
  match a, b with
  | NaN, _ | _, NaN => NaN
  | Fin x, Fin y => Fin (x + y)
  | PInf, NInf | NInf, PInf => NaN
  | PInf, _ | _, PInf => PInf
  | NInf, _ | _, NInf => NInf
  end.

Definition nsub (a b : num) : num := nadd a (nopp b).

Definition nmul (a b : num) : num :=
  match a, b with
  | NaN, _ | _, NaN => NaN
  | Fin x, Fin y => Fin (x * y)
  | Fin x, PInf | PInf, Fin x => signed_inf (x ?= 0)
  | Fin x, NInf | NInf, Fin x => signed_inf (CompOpp (x ?= 0))
  | PInf, PInf | NInf, NInf => PInf
  | PInf, NInf | NInf, PInf => NInf
  end.

Definition ndiv (a b : num) : num :=
  match a, b with
  | NaN, _ | _, NaN => NaN
  | Fin x, Fin y => if Qeq_bool y 0 then signed_inf (x ?= 0) else Fin (x / y)
  | Fin _, PInf | Fin _, NInf => Fin 0
  | PInf, Fin y => if Qle_bool 0 y then PInf else NInf
  | NInf, Fin y => if Qle_bool 0 y then NInf else PInf
  | _, _ => NaN
  end.

(** [a <= b], [a < b], [a > b] and [a === b]. *)
Definition nle (a b : num) : bool :=
  match a, b with
  | NaN, _ | _, NaN => false
  | Fin x, Fin y => Qle_bool x y
  | NInf, _ | _, PInf => true
  | _, _ => false
  end.

Definition nlt (a b : num) : bool :=
  match a, b with
  | NaN, _ | _, NaN => false
  | Fin x, Fin y => negb (Qle_bool y x)
  | NInf, NInf | PInf, PInf => false
  | NInf, _ | _, PInf => true
  | _, _ => false
  end.

Definition ngt (a b : num) : bool := nlt b a.

Definition strict_eq (a b : num) : bool :=
  match a, b with
  | Fin x, Fin y => Qeq_bool x y
  | PInf, PInf | NInf, NInf => true
  | _, _ => false
  end.

(** [Math.min(a, b)] and [Math.max(a, b)]. *)
Definition Math_min (a b : num) : num :=
  match a, b with
  | NaN, _ | _, NaN => NaN
  | _, _ => if nle a b then a else b
  end.

Definition Math_max (a b : num) : num :=
  match a, b with
  | NaN, _ | _, NaN => NaN
  | _, _ => if nle b a then a else b
  end.

(** [Math.round]: the nearest integer, a half rounding up. *)
Definition round_half_up (q : Q) : Z := Qfloor (q + (1 # 2)).

Definition Math_round (a : num) : num :=
  match a with
  | Fin x => of_Z (round_half_up x)
  | _ => a
  end.

Definition Math_abs (a : num) : num :=
  match a with
  | Fin x => Fin (Qabs x)
  | PInf | NInf => PInf
  | NaN => NaN
  end.

(** [a || d] on numbers: [0] and [NaN] are falsy. *)
Definition or_default (a d : num) : num :=
  match a with
  | Fin x => if Qeq_bool x 0 then d else a
  | NaN => d
  | _ => a
  end.

Notation "a + b" := (nadd a b) : num_scope.
Notation "a - b" := (nsub a b) : num_scope.
Notation "a * b" := (nmul a b) : num_scope.
Notation "a / b" := (ndiv a b) : num_scope.
Notation "a <=? b" := (nle a b) (at level 70) : num_scope.
Notation "a >? b" := (ngt a b) (at level 70) : num_scope.
Notation "a === b" := (strict_eq a b) (at level 70) : num_scope.

(** Two numbers denote the same value. *)
Definition num_equiv (a b : num) : Prop :=
  match a, b with
  | Fin x, Fin y => x == y
  | PInf, PInf | NInf, NInf | NaN, NaN => True
  | _, _ => False
  end.

Infix "=n=" := num_equiv (at level 70).

(** ** Data model *)

Module Pt.
Record t : Type := mk { x : num; y : num }.
End Pt.

Module Box.
(** An annotation [{ id, x, y, w, h, name }], in natural image pixels. *)
Record t : Type := mk
  { id : string; x : num; y : num; w : num; h : num; name : string }.
End Box.

(** The loaded [HTMLImageElement]: only its natural size is read. *)
Record Image : Type := mkImage { naturalWidth : N; naturalHeight : N }.

(** The canvas element.  [width] and [height] are its integer pixel
    attributes; [style_width] and [style_height] hold the number [n] of the
    style length [`${n}px`], [None] standing for the empty string. *)
Record Canvas : Type := mkCanvas
  { width : Z; height : Z; style_width : option num; style_height : option num }.

Record Container : Type := mkContainer
  { clientWidth : Z; clientHeight : Z; scrollTop : num; scrollLeft : num }.

Record Bounds : Type := mkBounds
  { minX : num; maxX : num; minY : num; maxY : num }.

(** What a handler reads from the browser when it runs:
    [window.devicePixelRatio] and the canvas's [getBoundingClientRect()]. *)
Record Env : Type := mkEnv
  { devicePixelRatio : Q; rect_left : Q; rect_top : Q }.

Record MouseEvent : Type := mkMouseEvent { clientX : Q; clientY : Q }.

Record WheelEvent : Type := mkWheelEvent
  { wheelX : Q; wheelY : Q; deltaX : Q; deltaY : Q; deltaMode : Z;
    ctrlKey : bool; metaKey : bool; shiftKey : bool }.

Record State : Type := mkState
  { imageRef : option Image;
    canvasRef : option Canvas;
    containerRef : option Container;
    zoom : num;
    pan : Pt.t;
    panRef : Pt.t;
    zoomRef : num;
    spaceDown : bool;
    isPanning : bool;
    panStartRef : Pt.t;
    boxes : list Box.t;
    isDrawing : bool;
    startPt : option Pt.t;
    currentPt : option Pt.t;
    imageScroll : Pt.t;
    imageScrollRef : Pt.t }.

Definition set_imageRef (v : option Image) (s : State) : State :=
  mkState v (canvasRef s) (containerRef s) (zoom s) (pan s) (panRef s)
    (zoomRef s) (spaceDown s) (isPanning s) (panStartRef s) (boxes s)
    (isDrawing s) (startPt s) (currentPt s) (imageScroll s) (imageScrollRef s).

Definition set_canvasRef (v : option Canvas) (s : State) : State :=
  mkState (imageRef s) v (containerRef s) (zoom s) (pan s) (panRef s)
    (zoomRef s) (spaceDown s) (isPanning s) (panStartRef s) (boxes s)
    (isDrawing s) (startPt s) (currentPt s) (imageScroll s) (imageScrollRef s).

Definition set_containerRef (v : option Container) (s : State) : State :=
  mkState (imageRef s) (canvasRef s) v (zoom s) (pan s) (panRef s)
    (zoomRef s) (spaceDown s) (isPanning s) (panStartRef s) (boxes s)
    (isDrawing s) (startPt s) (currentPt s) (imageScroll s) (imageScrollRef s).

(** [zoomRef.current = z; setZoom(z)]. *)
Definition set_zoom (z : num) (s : State) : State :=
  mkState (imageRef s) (canvasRef s) (containerRef s) z (pan s) (panRef s)
    z (spaceDown s) (isPanning s) (panStartRef s) (boxes s)
    (isDrawing s) (startPt s) (currentPt s) (imageScroll s) (imageScrollRef s).

(** [panRef.current = p; setPan(p)]. *)
Definition set_pan (p : Pt.t) (s : State) : State :=
  mkState (imageRef s) (canvasRef s) (containerRef s) (zoom s) p p
    (zoomRef s) (spaceDown s) (isPanning s) (panStartRef s) (boxes s)
    (isDrawing s) (startPt s) (currentPt s) (imageScroll s) (imageScrollRef s).

Definition set_spaceDown (b : bool) (s : State) : State :=
  mkState (imageRef s) (canvasRef s) (containerRef s) (zoom s) (pan s) (panRef s)
    (zoomRef s) b (isPanning s) (panStartRef s) (boxes s)
    (isDrawing s) (startPt s) (currentPt s) (imageScroll s) (imageScrollRef s).

Definition set_isPanning (b : bool) (s : State) : State :=
  mkState (imageRef s) (canvasRef s) (containerRef s) (zoom s) (pan s) (panRef s)
    (zoomRef s) (spaceDown s) b (panStartRef s) (boxes s)
    (isDrawing s) (startPt s) (currentPt s) (imageScroll s) (imageScrollRef s).

Definition set_panStartRef (p : Pt.t) (s : State) : State :=
  mkState (imageRef s) (canvasRef s) (containerRef s) (zoom s) (pan s) (panRef s)
    (zoomRef s) (spaceDown s) (isPanning s) p (boxes s)
    (isDrawing s) (startPt s) (currentPt s) (imageScroll s) (imageScrollRef s).

Definition set_boxes (l : list Box.t) (s : State) : State :=
  mkState (imageRef s) (canvasRef s) (containerRef s) (zoom s) (pan s) (panRef s)
    (zoomRef s) (spaceDown s) (isPanning s) (panStartRef s) l
    (isDrawing s) (startPt s) (currentPt s) (imageScroll s) (imageScrollRef s).

Definition set_isDrawing (b : bool) (s : State) : State :=
  mkState (imageRef s) (canvasRef s) (containerRef s) (zoom s) (pan s) (panRef s)
    (zoomRef s) (spaceDown s) (isPanning s) (panStartRef s) (boxes s)
    b (startPt s) (currentPt s) (imageScroll s) (imageScrollRef s).

Definition set_startPt (p : option Pt.t) (s : State) : State :=
  mkState (imageRef s) (canvasRef s) (containerRef s) (zoom s) (pan s) (panRef s)
    (zoomRef s) (spaceDown s) (isPanning s) (panStartRef s) (boxes s)
    (isDrawing s) p (currentPt s) (imageScroll s) (imageScrollRef s).

Definition set_currentPt (p : option Pt.t) (s : State) : State :=
  mkState (imageRef s) (canvasRef s) (containerRef s) (zoom s) (pan s) (panRef s)
    (zoomRef s) (spaceDown s) (isPanning s) (panStartRef s) (boxes s)
    (isDrawing s) (startPt s) p (imageScroll s) (imageScrollRef s).

(** [imageScrollRef.current = p; setImageScroll(p)]. *)
Definition set_imageScroll (p : Pt.t) (s : State) : State :=
  mkState (imageRef s) (canvasRef s) (containerRef s) (zoom s) (pan s) (panRef s)
    (zoomRef s) (spaceDown s) (isPanning s) (panStartRef s) (boxes s)
    (isDrawing s) (startPt s) (currentPt s) p p.

(** ** Browser primitives *)

Local Open Scope num_scope.

(** [window.devicePixelRatio || 1]. *)
Definition dpr_of (env : Env) : num := or_default (Fin (devicePixelRatio env)) (Fin 1).

Definition Qtruncate (q : Q) : Z := Z.quot (Qnum q) (Zpos (Qden q)).

(** [parseInt(v || '0', 10)] for a style length [`${n}px`]: the integer part
    of a finite [n] (one below [1e21], which prints without an exponent);
    ["NaNpx"] and ["Infinitypx"] parse to [NaN]. *)
Definition parseInt_px (v : option num) : num :=
  match v with
  | None => Fin 0
  | Some (Fin q) => of_Z (Qtruncate q)
  | Some _ => NaN
  end.

(** The integer a canvas pixel attribute holds after [canvas.width = v].  The
    attribute is an [unsigned long] that reflects a content attribute: [v] is
    converted as [ToUint32] does (the integer part modulo [2^32], and [0] for
    [NaN] and the infinities), and a result above [2147483647] is replaced by
    the default of the attribute, [300] for the width and [150] for the
    height. *)
Definition canvas_dim (default : Z) (v : num) : Z :=
  match v with
  | Fin q =>
      let k := (Qtruncate q mod 2 ^ 32)%Z in
      if (k <=? 2147483647)%Z then k else default
  | _ => 0%Z
  end.

(** The style length after [canvas.style.width = `${n}px`], [old] being the
    one before.  A declaration that does not parse as a non-negative length
    (["-12px"], ["NaNpx"], ["Infinitypx"]) is ignored. *)
Definition set_px (old : option num) (n : num) : option num :=
  match n with
  | Fin q => if Qle_bool 0 q then Some n else old
  | _ => old
  end.

(** ** Geometry: pan bounds and pan clamping (App.jsx 205-250) *)

Definition getPanBounds (s : State) (z : num) : Bounds :=
  match canvasRef s with
  | None => mkBounds (Fin 0) (Fin 0) (Fin 0) (Fin 0)
  | Some canvas =>
      let cw := of_Z (width canvas) in
      let ch := of_Z (height canvas) in
      let contentW := z * cw in
      let contentH := z * ch in
      if (contentW <=? cw) && (contentH <=? ch) then
        let cx := (cw - contentW) / Fin 2 in
        let cy := (ch - contentH) / Fin 2 in
        mkBounds cx cx cy cy
      else
        let bounds :=
          mkBounds (Math_min (Fin 0) (cw - contentW)) (Fin 0)
                   (Math_min (Fin 0) (ch - contentH)) (Fin 0) in
        let bounds :=
          if contentW <=? cw then
            let cx := (cw - contentW) / Fin 2 in
            mkBounds cx cx (minY bounds) (maxY bounds)
          else bounds in
        let bounds :=
          if contentH <=? ch then
            let cy := (ch - contentH) / Fin 2 in
            mkBounds (minX bounds) (maxX bounds) cy cy
          else bounds in
        bounds
  end.

Definition clampPan (s : State) (z : num) (p : Pt.t) : Pt.t :=
  let b := getPanBounds s z in
  Pt.mk (Math_min (maxX b) (Math_max (minX b) (Pt.x p)))
        (Math_min (maxY b) (Math_max (minY b) (Pt.y p))).

Definition resetView (s : State) : State :=
  let z := Fin 1 in
  let s := set_zoom z s in
  let centered := clampPan s z (Pt.mk (Fin 0) (Fin 0)) in
  set_pan centered s.

(** ** Surface sizing (App.jsx 161-200) *)

Definition fitCanvasToContainer (env : Env) (s : State) : State :=
  match canvasRef s, containerRef s, imageRef s with
  | Some canvas, Some container, Some img =>
      let containerWidth := of_Z (clientWidth container - 32) in
      let containerHeight := of_Z (clientHeight container - 32) in
      let aspect := of_N (naturalWidth img) / of_N (naturalHeight img) in
      let nextCssWidth := Math_min containerWidth (of_N (naturalWidth img)) in
      let nextCssHeight := Math_round (nextCssWidth / aspect) in
      let dpr := dpr_of env in
      let nextPixelWidth := Math_round (nextCssWidth * dpr) in
      let nextPixelHeight := Math_round (nextCssHeight * dpr) in
      let curCssWidth := parseInt_px (style_width canvas) in
      let curCssHeight := parseInt_px (style_height canvas) in
      if (curCssWidth === nextCssWidth) && (curCssHeight === nextCssHeight)
         && (of_Z (width canvas) === nextPixelWidth)
         && (of_Z (height canvas) === nextPixelHeight)
      then s
      else
        let canvas :=
          mkCanvas (canvas_dim 300 nextPixelWidth) (canvas_dim 150 nextPixelHeight)
                   (set_px (style_width canvas) nextCssWidth)
                   (set_px (style_height canvas) nextCssHeight) in
        let s := set_canvasRef (Some canvas) s in
        let s := set_imageScroll (Pt.mk (Fin 0) (Fin 0)) s in
        let clamped := clampPan s (zoomRef s) (panRef s) in
        set_pan clamped s
  | _, _, _ => s
  end.

(** ** Screen point to natural image pixels (App.jsx 264-290) *)

Definition eventToImageCoords (env : Env) (evt : MouseEvent) (s : State) : Pt.t :=
  match canvasRef s, imageRef s with
  | Some canvas, Some img =>
      let dpr := dpr_of env in
      let cx := (Fin (clientX evt) - Fin (rect_left env)) * dpr in
      let cy := (Fin (clientY evt) - Fin (rect_top env)) * dpr in
      let z := zoomRef s in
      let px := Pt.x (panRef s) in
      let py := Pt.y (panRef s) in
      let vx := (cx - px) / z in
      let vy := (cy - py) / z in
      let sx := of_N (naturalWidth img) / of_Z (width canvas) in
      let sy := of_N (naturalHeight img) / of_Z (height canvas) in
      Pt.mk
        (Math_max (Fin 0) (Math_min (of_N (naturalWidth img)) (Math_round (vx * sx))))
        (Math_max (Fin 0) (Math_min (of_N (naturalHeight img)) (Math_round (vy * sy))))
  | _, _ => Pt.mk (Fin 0) (Fin 0)
  end.

(** ** Mouse handlers (App.jsx 293-367) *)

(** The canvas point of a client point: [(client - rect.origin) * dpr]. *)
Definition canvasX (env : Env) (clientX : Q) : num :=
  (Fin clientX - Fin (rect_left env)) * dpr_of env.
Definition canvasY (env : Env) (clientY : Q) : num :=
  (Fin clientY - Fin (rect_top env)) * dpr_of env.

(** With no canvas mounted, [canvasRef.current.getBoundingClientRect()]
    throws and the handler stops there. *)
Definition onMouseDown (env : Env) (e : MouseEvent) (s : State) : State :=
  match imageRef s with
  | None => s
  | Some _ =>
      if spaceDown s then
        let s := set_isPanning true s in
        match canvasRef s with
        | None => s
        | Some _ =>
            set_panStartRef
              (Pt.mk (canvasX env (clientX e) - Pt.x (panRef s))
                     (canvasY env (clientY e) - Pt.y (panRef s))) s
        end
      else
        let pt := eventToImageCoords env e s in
        set_isDrawing true (set_currentPt (Some pt) (set_startPt (Some pt) s))
  end.

Definition onMouseMove (env : Env) (e : MouseEvent) (s : State) : State :=
  if isPanning s then
    match canvasRef s with
    | None => s
    | Some _ =>
        let raw :=
          Pt.mk (canvasX env (clientX e) - Pt.x (panStartRef s))
                (canvasY env (clientY e) - Pt.y (panStartRef s)) in
        let clamped := clampPan s (zoomRef s) raw in
        set_pan clamped s
    end
  else if negb (isDrawing s) then s
  else
    let pt := eventToImageCoords env e s in
    set_currentPt (Some pt) s.

(** [uuid] is the value [crypto.randomUUID()] returns when it is called. *)
Definition endInteractions (uuid : string) (s : State) : State :=
  let s := set_isPanning false s in
  match isDrawing s, startPt s, currentPt s with
  | true, Some startPt, Some currentPt =>
      let x := Math_min (Pt.x startPt) (Pt.x currentPt) in
      let y := Math_min (Pt.y startPt) (Pt.y currentPt) in
      let w := Math_abs (Pt.x currentPt - Pt.x startPt) in
      let h := Math_abs (Pt.y currentPt - Pt.y startPt) in
      let s :=
        if (w >? Fin 5) && (h >? Fin 5) then
          set_boxes (boxes s ++ [Box.mk uuid x y w h EmptyString]) s
        else s in
      set_currentPt None (set_startPt None (set_isDrawing false s))
  | _, _, _ => set_isDrawing false s
  end.

Definition onMouseUp (uuid : string) (s : State) : State := endInteractions uuid s.
Definition onMouseLeave (uuid : string) (s : State) : State := endInteractions uuid s.

(** ** Annotation list editing (App.jsx 528-549) *)

Definition updateBoxName (id name : string) (s : State) : State :=
  set_boxes
    (map (fun b => if String.eqb (Box.id b) id
                   then Box.mk (Box.id b) (Box.x b) (Box.y b) (Box.w b) (Box.h b) name
                   else b)
         (boxes s)) s.

Definition deleteBox (id : string) (s : State) : State :=
  set_boxes (filter (fun b => negb (String.eqb (Box.id b) id)) (boxes s)) s.

(** [clearAll]; the image reference is dropped later, by the image effect. *)
Definition clearAll (s : State) : State := resetView (set_boxes [] s).

(** ** Wheel handler (App.jsx 374-440) and keys (App.jsx 69-81) *)

Definition minZ : num := Fin (1 # 5).
Definition maxZ : num := Fin 8.

(** The zoom branch of [wheelHandler] from [const minZ] on: zoom by [factor]
    about the canvas point [(mx, my)]. *)
Definition zoomAt (mx my factor : num) (s : State) : State :=
  let oldZ := zoomRef s in
  let newZ := Math_min maxZ (Math_max minZ (oldZ * factor)) in
  if newZ === oldZ then s
  else
    let rawPanX := mx - ((mx - Pt.x (panRef s)) * newZ) / oldZ in
    let rawPanY := my - ((my - Pt.y (panRef s)) * newZ) / oldZ in
    let clamped := clampPan s newZ (Pt.mk rawPanX rawPanY) in
    set_pan clamped (set_zoom newZ s).

Definition onKeyDown (code : string) (s : State) : State :=
  if String.eqb code "Space" then set_spaceDown true s else s.

Definition onKeyUp (code : string) (s : State) : State :=
  if String.eqb code "Space" then set_isPanning false (set_spaceDown false s) else s.

Section Handlers.

(** [Math.exp], on the finite arguments the wheel handler gives it. *)
Variable Math_exp : Q -> Q.

(** The listener is attached only when the canvas is mounted. *)
Definition wheelHandler (env : Env) (e : WheelEvent) (s : State) : State :=
  match canvasRef s with
  | None => s
  | Some _ =>
      if ctrlKey e || metaKey e then
        let mx := canvasX env (wheelX e) in
        let my := canvasY env (wheelY e) in
        let delta := (- deltaY e)%Q in
        let factor := Fin (Math_exp (delta * (15 # 10000))%Q) in
        zoomAt mx my factor s
      else if spaceDown s then
        let lineHeight := Fin 16 in
        let scale := if (deltaMode e =? 1)%Z then lineHeight else Fin 1 in
        let dX := if shiftKey e then Fin (deltaY e) else Fin (deltaX e) in
        let dY := if shiftKey e then Fin 0 else Fin (deltaY e) in
        let raw := Pt.mk (Pt.x (panRef s) - dX * scale)
                         (Pt.y (panRef s) - dY * scale) in
        let clamped := clampPan s (zoomRef s) raw in
        set_pan clamped s
      else
        match containerRef s with
        | None => s
        | Some container =>
            let scrollSpeed := Fin 50 in
            let top := scrollTop container + Fin (deltaY e) * (scrollSpeed / Fin 100) in
            let left :=
              if negb (shiftKey e) && negb (Qeq_bool (deltaX e) 0)
              then scrollLeft container + Fin (deltaX e) * (scrollSpeed / Fin 100)
              else scrollLeft container in
            set_containerRef
              (Some (mkContainer (clientWidth container) (clientHeight container)
                                 top left)) s
        end
  end.

(** ** The application as a transition system *)

Inductive Event : Type :=
| MouseDown (e : MouseEvent)
| MouseMove (e : MouseEvent)
| MouseUp (uuid : string)
| MouseLeave (uuid : string)
| Wheel (e : WheelEvent)
| KeyDown (code : string)
| KeyUp (code : string)
| ResetViewClick
| UpdateBoxName (id name : string)
| DeleteBox (id : string)
| ClearAll
(** [reader.onload] of [onFileChange] *)
| FileRead
(** the image effect with [imageUrl] null, or its cleanup *)
| ImageDropped
(** [img.onload] of the image effect *)
| ImageLoaded (img : Image)
(** boxes restored from local storage on mount *)
| Restored (bs : list Box.t)
(** the browser lays the container out at a new size *)
| ContainerResized (w h : Z)
(** the frame callback of the resize observer *)
| ResizeFrame.

Definition step (env : Env) (ev : Event) (s : State) : State :=
  match ev with
  | MouseDown e => onMouseDown env e s
  | MouseMove e => onMouseMove env e s
  | MouseUp uuid => onMouseUp uuid s
  | MouseLeave uuid => onMouseLeave uuid s
  | Wheel e => wheelHandler env e s
  | KeyDown code => onKeyDown code s
  | KeyUp code => onKeyUp code s
  | ResetViewClick => resetView s
  | UpdateBoxName id name => updateBoxName id name s
  | DeleteBox id => deleteBox id s
  | ClearAll => clearAll s
  | FileRead => resetView (set_boxes [] s)
  | ImageDropped => set_imageRef None s
  | ImageLoaded img => resetView (fitCanvasToContainer env (set_imageRef (Some img) s))
  | Restored bs => set_boxes bs s
  | ContainerResized w h =>
      match containerRef s with
      | None => s
      | Some c => set_containerRef (Some (mkContainer w h (scrollTop c) (scrollLeft c))) s
      end
  | ResizeFrame => fitCanvasToContainer env s
  end.

(** The state on mount: no image, the canvas and the container as the
    browser created them. *)
Definition initial (canvas : option Canvas) (container : option Container) : State :=
  let origin := Pt.mk (Fin 0) (Fin 0) in
  mkState None canvas container (Fin 1) origin origin (Fin 1)
          false false origin [] false None None origin origin.

Inductive reachable : State -> Prop :=
| reachable_initial canvas container : reachable (initial canvas container)
| reachable_step env ev s : reachable s -> reachable (step env ev s).

(** The events of a session on one image: all of them but the ones that
    replace or drop the image, or that replace the annotations by stored
    ones. *)
Definition in_session (ev : Event) : Prop :=
  match ev with
  | ImageLoaded _ | ImageDropped | Restored _ => False
  | _ => True
  end.

Inductive session_reach (s0 : State) : State -> Prop :=
| session_start : session_reach s0 s0
| session_step env ev s :
    in_session ev -> session_reach s0 s -> session_reach s0 (step env ev s).

End Handlers.

(** ** Renderer (App.jsx 451-519) *)

(** [Math.ceil]. *)
Definition Math_ceil (a : num) : num :=
  match a with
  | Fin x => of_Z (Qceiling x)
  | _ => a
  end.

(** What [draw] does to the 2d context, in order.  A font is always
    [`${px}px sans-serif`]; [DrawImage] is [ctx.drawImage(img, x, y, w, h)]. *)
Inductive Cmd : Type :=
| SetTransform (a b c d e f : num)
| ClearRect (x y w h : num)
| FillStyle (style : string)
| StrokeStyle (style : string)
| LineWidth (n : num)
| Font (px : num)
| FillRect (x y w h : num)
| FillText (text : string) (x y : num)
| DrawImage (x y w h : num)
| StrokeRect (x y w h : num)
| SetLineDash (segments : list num).

(** The decimal digits of [n], as a template literal prints it. *)
Definition decimal (n : nat) : string := NilEmpty.string_of_uint (Nat.to_uint n).

(** [b.name || `Field ${idx + 1}`]. *)
Definition boxLabel (b : Box.t) (idx : nat) : string :=
  match Box.name b with
  | EmptyString => String.append "Field " (decimal (idx + 1))
  | name => name
  end.

(** The rectangle [x, y, w, h] stroked for the annotation [b], in canvas
    drawing pixels before the transform. *)
Definition boxOutline (sx sy : num) (b : Box.t) : num * num * num * num :=
  let x := Math_round (Box.x b * sx) in
  let y := Math_round (Box.y b * sy) in
  let w := Math_round (Box.w b * sx) in
  let h := Math_round (Box.h b * sy) in
  (x, y, w, h).

Section Renderer.

(** [ctx.measureText(text).width] under the font [`${px}px sans-serif`]. *)
Variable measureText : num -> string -> num.

(** The body of [boxes.forEach((b, idx) => ...)]. *)
Definition drawBox (env : Env) (sx sy : num) (b : Box.t) (idx : nat) : list Cmd :=
  let '(x, y, w, h) := boxOutline sx sy b in
  let label := boxLabel b idx in
  let font := Fin 12 * dpr_of env in
  let padding := Fin 4 in
  let metrics := measureText font label in
  let labelW := Math_ceil metrics + padding * Fin 2 in
  let labelH := Fin 18 in
  [ LineWidth (Fin 2);
    StrokeStyle "#2dd4bf";
    StrokeRect x y w h;
    Font font;
    FillStyle "rgba(45, 212, 191, 0.85)";
    FillRect x (Math_max (Fin 0) (y - labelH)) labelW labelH;
    FillStyle "#053b37";
    FillText label (x + padding) (Math_max (Fin 12) (y - Fin 6)) ].

Fixpoint drawBoxes (env : Env) (sx sy : num) (idx : nat) (bs : list Box.t) : list Cmd :=
  match bs with
  | [] => []
  | b :: bs => drawBox env sx sy b idx ++ drawBoxes env sx sy (S idx) bs
  end.

(** The rectangle of the gesture in progress. *)
Definition drawActive (sx sy : num) (s : State) : list Cmd :=
  match isDrawing s, startPt s, currentPt s with
  | true, Some startPt, Some currentPt =>
      let x := Math_min (Pt.x startPt) (Pt.x currentPt) * sx in
      let y := Math_min (Pt.y startPt) (Pt.y currentPt) * sy in
      let w := Math_abs (Pt.x currentPt - Pt.x startPt) * sx in
      let h := Math_abs (Pt.y currentPt - Pt.y startPt) * sy in
      [ SetLineDash [Fin 6; Fin 4];
        LineWidth (Fin 2);
        StrokeStyle "#f97316";
        StrokeRect (Math_round x) (Math_round y) (Math_round w) (Math_round h);
        SetLineDash [] ]
  | _, _, _ => []
  end.

(** [draw], for a mounted canvas that gives its 2d context. *)
Definition draw (env : Env) (s : State) : list Cmd :=
  match canvasRef s with
  | None => []
  | Some canvas =>
      let cw := of_Z (width canvas) in
      let ch := of_Z (height canvas) in
      let clear :=
        [ SetTransform (Fin 1) (Fin 0) (Fin 0) (Fin 1) (Fin 0) (Fin 0);
          ClearRect (Fin 0) (Fin 0) cw ch ] in
      match imageRef s with
      | None =>
          clear ++
          [ FillStyle "#f5f5f5";
            FillRect (Fin 0) (Fin 0) cw ch;
            FillStyle "#888";
            Font (Fin 14 * dpr_of env);
            FillText "Upload an image to start annotating" (Fin 12) (Fin 28) ]
      | Some img =>
          let sx := cw / of_N (naturalWidth img) in
          let sy := ch / of_N (naturalHeight img) in
          clear ++
          [ SetTransform (zoomRef s) (Fin 0) (Fin 0) (zoomRef s)
                         (Pt.x (panRef s)) (Pt.y (panRef s));
            DrawImage (Fin 0) (Fin 0) cw ch ] ++
          drawBoxes env sx sy 0 (boxes s) ++
          drawActive sx sy s
      end
  end.

End Renderer.

(** ** Export (App.jsx 552-580) *)

Module Px.
Record t : Type := mk { x : num; y : num; width : num; height : num }.
End Px.

(** One entry of [fields]: [{ id, name, pixels, percent }]. *)
Record Field : Type := mkField
  { field_id : string; field_name : string; pixels : Px.t; percent : Px.t }.

(** The object handed to [JSON.stringify]:
    [{ image: { name, width, height }, fields }]. *)
Record Payload : Type := mkPayload
  { image_name : string; image_width : N; image_height : N; fields : list Field }.

(** The state of the component: the viewport and annotation state, with the
    image url and name and the export pane. *)
Record App : Type := mkApp
  { core : State;
    imageUrl : option string;
    imageName : string;
    exportedJson : string;
    copied : bool }.

(** [+(v).toFixed(6)]: [v] rounded to six decimals, a tie away from zero;
    from [1e21] on [toFixed] prints the number as it is.  (The code rounds
    the floating point quotient, which at a tie of the exact quotient can lie
    on either side of it.) *)
Definition toFixed6 (v : num) : num :=
  match v with
  | Fin q =>
      if Qle_bool (inject_Z (10 ^ 21)) (Qabs q) then v
      else if Qle_bool 0 q
           then Fin (inject_Z (round_half_up (q * inject_Z 1000000)) / inject_Z 1000000)
           else Fin (- (inject_Z (round_half_up (- q * inject_Z 1000000)) / inject_Z 1000000))
  | _ => v
  end.

(** The body of [boxes.map((b) => ...)]. *)
Definition exportField (img : Image) (b : Box.t) : Field :=
  let px := Px.mk (Box.x b) (Box.y b) (Box.w b) (Box.h b) in
  let pct :=
    Px.mk (toFixed6 (Box.x b / of_N (naturalWidth img)))
          (toFixed6 (Box.y b / of_N (naturalHeight img)))
          (toFixed6 (Box.w b / of_N (naturalWidth img)))
          (toFixed6 (Box.h b / of_N (naturalHeight img))) in
  mkField (Box.id b) (Box.name b) px pct.

(** [s || d] on strings: the empty string is falsy. *)
Definition string_or (s d : string) : string :=
  match s with
  | EmptyString => d
  | _ => s
  end.

Definition exportPayload (imageName : string) (img : Image) (bs : list Box.t) : Payload :=
  mkPayload (string_or imageName "uploaded-image")
            (naturalWidth img) (naturalHeight img)
            (map (exportField img) bs).

Section ExportJson.

(** [JSON.stringify(payload, null, 2)]. *)
Variable JSON_stringify : Payload -> string.

Definition exportJson (app : App) : App :=
  match imageRef (core app) with
  | None => app
  | Some img =>
      let payload := exportPayload (imageName app) img (boxes (core app)) in
      let json := JSON_stringify payload in
      mkApp (core app) (imageUrl app) (imageName app) json false
  end.

End ExportJson.

(** ** Resize observer (App.jsx 128-157) *)

(** The variables of the effect: [let frame = 0] and [let lastWidth = 0];
    [pending] is the browser's list of the animation frames the observer
    callback has requested (the ones that run [fitCanvasToContainer]) and
    that are neither run nor cancelled yet. *)
Record Observer : Type := mkObserver
  { frame : N; lastWidth : num; pending : list positive }.

Definition observer_initial : Observer := mkObserver 0 (Fin 0) [].

(** The observer callback.  [inlineSize] is the inline size of the entry's
    content box, when the entry has one; [clientWidth] is the container's;
    [handle] is what [requestAnimationFrame] returns, a non-zero integer. *)
Definition resizeCallback (inlineSize : option Q) (clientWidth : Z)
  (handle : positive) (o : Observer) : Observer :=
  let width :=
    match inlineSize with
    | Some w => or_default (Fin w) (of_Z clientWidth)
    | None => of_Z clientWidth
    end in
  if nlt (Math_abs (width - lastWidth o)) (Fin 1) then o
  else
    let cancelled :=
      match frame o with
      | N0 => pending o
      | Npos f => filter (fun p => negb (Pos.eqb p f)) (pending o)
      end in
    mkObserver (Npos handle) width (handle :: cancelled).

(** The browser runs the animation frame [handle]. *)
Definition frameRuns (handle : positive) (o : Observer) : Observer :=
  mkObserver (frame o) (lastWidth o)
             (filter (fun p => negb (Pos.eqb p handle)) (pending o)).

(** ** Vocabulary of the properties *)

Definition box_ids (l : list Box.t) : list string := map Box.id l.

Definition with_name (name : string) (b : Box.t) : Box.t :=
  Box.mk (Box.id b) (Box.x b) (Box.y b) (Box.w b) (Box.h b) name.

Definition within (lo v hi : num) : Prop := (lo <=? v) = true /\ (v <=? hi) = true.

Definition finite_pt (p : Pt.t) : Prop := exists a b, p = Pt.mk (Fin a) (Fin b).

(** The pan lies within the bounds of the current zoom and canvas. *)
Definition pan_in_bounds (s : State) : Prop :=
  let b := getPanBounds s (zoomRef s) in
  within (minX b) (Pt.x (panRef s)) (maxX b) /\
  within (minY b) (Pt.y (panRef s)) (maxY b).

(** What the handlers keep true besides the pan bounds. *)
Definition view_ok (s : State) : Prop :=
  (exists q, zoomRef s = Fin q /\ (1 # 5 <= q <= 8)%Q) /\
  zoom s = zoomRef s /\
  finite_pt (panStartRef s).

Definition Inv (s : State) : Prop :=
  view_ok s /\ pan_in_bounds s /\ pan s = panRef s /\ finite_pt (panRef s).

(** A state whose pan was just written through [clampPan] at its own zoom. *)
Definition pan_written_clamped (s' : State) : Prop :=
  exists raw, panRef s' = clampPan s' (zoomRef s') raw /\ pan s' = panRef s'.

Definition view_untouched (s s' : State) : Prop :=
  panRef s' = panRef s /\ pan s' = pan s /\ zoomRef s' = zoomRef s /\
  canvasRef s' = canvasRef s.

(** The rational value of [window.devicePixelRatio || 1]. *)
Definition dprQ (env : Env) : Q :=
  if Qeq_bool (devicePixelRatio env) 0 then 1%Q else devicePixelRatio env.

(** A coordinate is [NaN] or an integer of [[0, n]]. *)
Definition coord_ok (v : num) (n : N) : Prop :=
  v = NaN \/ exists k : Z, v = of_Z k /\ (0 <= k <= Z.of_N n)%Z.

Definition pt_ok (img : Image) (p : Pt.t) : Prop :=
  coord_ok (Pt.x p) (naturalWidth img) /\ coord_ok (Pt.y p) (naturalHeight img).

Definition opt_pt_ok (img : Image) (p : option Pt.t) : Prop :=
  match p with
  | Some p => pt_ok img p
  | None => True
  end.

(** An annotation with integer coordinates that lies within the image. *)
Definition box_in_image (img : Image) (b : Box.t) : Prop :=
  exists kx ky kw kh : Z,
    Box.x b =n= of_Z kx /\ Box.y b =n= of_Z ky /\
    Box.w b =n= of_Z kw /\ Box.h b =n= of_Z kh /\
    (0 <= kx)%Z /\ (0 <= ky)%Z /\
    (kx + kw <= Z.of_N (naturalWidth img))%Z /\
    (ky + kh <= Z.of_N (naturalHeight img))%Z.

(** The image is [img] and the points of the gesture, if any, are fine. *)
Definition gesture_ok (img : Image) (s : State) : Prop :=
  imageRef s = Some img /\
  opt_pt_ok img (startPt s) /\ opt_pt_ok img (currentPt s).

(** Handlers of the viewport leave the image, the gesture and the
    annotations alone. *)
Definition store_untouched (s s' : State) : Prop :=
  imageRef s' = imageRef s /\ startPt s' = startPt s /\
  currentPt s' = currentPt s /\ boxes s' = boxes s.

(** A 1000 x 1 image loaded into a 432 pixel wide container: the canvas is
    fitted to 400 x 0 pixels. *)
Definition strip_env : Env := mkEnv 1 0 0.

Definition strip_image : Image := mkImage 1000 1.

Definition strip_state : State :=
  step (fun _ => 1%Q) strip_env (ImageLoaded strip_image)
       (initial (Some (mkCanvas 300 150 None None))
                (Some (mkContainer 432 600 (Fin 0) (Fin 0)))).

(** An 800 x 600 image loaded into a 432 pixel wide container (canvas 400 x
    300), then zoomed to 2 about the canvas centre, and a drag from the
    natural point (100, 100) to (300, 200) on the unzoomed image. *)
Definition demo_env : Env := mkEnv 1 0 0.

(** A stand-in for [Math.exp] under which every wheel notch doubles the zoom. *)
Definition demo_exp (q : Q) : Q := 2.

Definition demo_image : Image := mkImage 800 600.

Definition demo_initial : State :=
  initial (Some (mkCanvas 300 150 None None))
          (Some (mkContainer 432 600 (Fin 0) (Fin 0))).

Definition demo_loaded : State :=
  step demo_exp demo_env (ImageLoaded demo_image) demo_initial.

Definition demo_zoomed : State :=
  step demo_exp demo_env
       (Wheel (mkWheelEvent 200 150 0 (-100) 0 true false false)) demo_loaded.

Definition demo_dragged : State :=
  step demo_exp demo_env (MouseMove (mkMouseEvent 150 100))
       (step demo_exp demo_env (MouseDown (mkMouseEvent 50 50)) demo_loaded).

Definition demo_box (id name : string) : Box.t :=
  Box.mk id (Fin 100) (Fin 100) (Fin 200) (Fin 100) name.

(** A gesture that outlives its image: the mouse goes down on the natural
    point (700, 500) of the 800 x 600 image, then the file reader delivers an
    upload, the image effect drops the old image and loads a 400 x 300 one
    (the canvas stays 400 x 300), and the mouse moves to (300, 200). *)
Definition small_image : Image := mkImage 400 300.

Definition replaced_events : list Event :=
  [ MouseDown (mkMouseEvent 350 250); FileRead; ImageDropped;
    ImageLoaded small_image; MouseMove (mkMouseEvent 300 200) ].

Definition replaced_state : State :=
  fold_left (fun s ev => step demo_exp demo_env ev s) replaced_events demo_loaded.

Definition stale_box : Box.t :=
  Box.mk "u1" (Fin 300) (Fin 200) (Fin 400) (Fin 300) "".

(** The rectangles stroked and the texts filled by a list of commands. *)
Definition strokes (l : list Cmd) : list (num * num * num * num) :=
  flat_map (fun c => match c with
                     | StrokeRect x y w h => [(x, y, w, h)]
                     | _ => []
                     end) l.

Definition texts (l : list Cmd) : list string :=
  flat_map (fun c => match c with
                     | FillText t _ _ => [t]
                     | _ => []
                     end) l.

(** The commands that act on the canvas as a whole: setting the transform,
    clearing, and drawing the image. *)
Definition whole_canvas (c : Cmd) : bool :=
  match c with
  | SetTransform _ _ _ _ _ _ | ClearRect _ _ _ _ | DrawImage _ _ _ _ => true
  | _ => false
  end.

Definition canvas_ops (l : list Cmd) : list Cmd := filter whole_canvas l.

(** The observer has at most one animation frame pending, the one whose
    handle it keeps in [frame]. *)
Definition one_pending (o : Observer) : Prop :=
  pending o = [] \/ exists f, frame o = Npos f /\ pending o = [f].

(** What happens to the observer: the container is resized, or the browser
    runs a frame. *)
Inductive ObserverEvent : Type :=
| Resized (inlineSize : option Q) (clientWidth : Z) (handle : positive)
| FrameRan (handle : positive).

Definition observer_step (o : Observer) (ev : ObserverEvent) : Observer :=
  match ev with
  | Resized inlineSize clientWidth handle => resizeCallback inlineSize clientWidth handle o
  | FrameRan handle => frameRuns handle o
  end.

(** The width the callback reads from an entry. *)
Definition observedWidth (inlineSize : option Q) (clientWidth : Z) : num :=
  match inlineSize with
  | Some w => or_default (Fin w) (of_Z clientWidth)
  | None => of_Z clientWidth
  end.

(** * Properties *)

(** ** Facts about the number model *)

Lemma Qle_bool_false (x y : Q) : Qle_bool x y = false <-> (y < x)%Q.
Proof.
  split; intro H.
  - apply Qnot_le_lt. intro L. apply Qle_bool_iff in L. congruence.
  - destruct (Qle_bool x y) eqn:E; [|reflexivity].
    apply Qle_bool_iff in E. lra.
Qed.

Lemma Qeq_bool_false (x y : Q) : Qeq_bool x y = false <-> ~ (x == y)%Q.
Proof.
  split; intro H.
  - intro E. apply Qeq_bool_iff in E. congruence.
  - destruct (Qeq_bool x y) eqn:E; [|reflexivity].
    apply Qeq_bool_iff in E. contradiction.
Qed.

Lemma Qcompare_Eq (x y : Q) : (x ?= y)%Q = Eq <-> (x == y)%Q.
Proof. symmetry. apply Qeq_alt. Qed.

Lemma Qcompare_Gt (x y : Q) : (x ?= y)%Q = Gt <-> (y < x)%Q.
Proof. symmetry. apply Qgt_alt. Qed.

(** Turn the boolean tests of the context into facts on rationals. *)
Ltac qfacts :=
  repeat match goal with
    | H : Qle_bool _ _ = true |- _ => apply (proj1 (Qle_bool_iff _ _)) in H
    | H : Qle_bool _ _ = false |- _ => apply (proj1 (Qle_bool_false _ _)) in H
    | H : Qeq_bool _ _ = true |- _ => apply (proj1 (Qeq_bool_iff _ _)) in H
    | H : Qeq_bool _ _ = false |- _ => apply (proj1 (Qeq_bool_false _ _)) in H
    | H : (_ ?= _)%Q = Eq |- _ => apply (proj1 (Qcompare_Eq _ _)) in H
    | H : (?a ?= ?b)%Q = Lt |- _ => change (a < b)%Q in H
    | H : (_ ?= _)%Q = Gt |- _ => apply (proj1 (Qcompare_Gt _ _)) in H
    end.

(** Split on the first rational test the goal branches on. *)
Ltac qsplit :=
  match goal with
  | |- context [Qle_bool ?a ?b] => destruct (Qle_bool a b) eqn:?
  | |- context [Qeq_bool ?a ?b] => destruct (Qeq_bool a b) eqn:?
  | |- context [(?a ?= ?b)%Q] => destruct (a ?= b)%Q eqn:?
  end.

Ltac qcases := repeat (qsplit; cbn in * ); qfacts.

(** Linear arithmetic, division by a numeral included. *)
Ltac qlra := unfold Qdiv in *; lra.

Lemma num_equiv_refl (a : num) : a =n= a.
Proof. destruct a; cbn; trivial. reflexivity. Qed.

Lemma num_equiv_sym (a b : num) : a =n= b -> b =n= a.
Proof. destruct a, b; cbn; trivial. intro H. symmetry. exact H. Qed.

Lemma num_equiv_trans (a b c : num) : a =n= b -> b =n= c -> a =n= c.
Proof.
  destruct a, b, c; cbn; trivial; try contradiction.
  intros H1 H2. rewrite H1. exact H2.
Qed.

Lemma strict_eq_equiv (a b : num) : (a === b) = true -> a =n= b.
Proof. destruct a, b; cbn; trivial; try discriminate. apply Qeq_bool_iff. Qed.

(** ** Pan bounds *)

(** C2: with a canvas of pixel size [cw] x [ch], [getPanBounds z] decides each
    axis on its own: where the content [z * dimension] is at most the
    dimension, min and max are both [(dimension - content) / 2]; otherwise min
    is [dimension - content], which is negative for a finite [z], and max is
    [0]. *)
Theorem getPanBounds_per_axis (s : State) (canvas : Canvas) (z : num) :
  canvasRef s = Some canvas ->
  let cw := of_Z (width canvas) in
  let ch := of_Z (height canvas) in
  let b := getPanBounds s z in
  (if z * cw <=? cw
   then minX b = (cw - z * cw) / Fin 2 /\ maxX b = (cw - z * cw) / Fin 2
   else minX b = cw - z * cw /\ maxX b = Fin 0 /\
        (forall q, z = Fin q -> nlt (minX b) (Fin 0) = true))
  /\
  (if z * ch <=? ch
   then minY b = (ch - z * ch) / Fin 2 /\ maxY b = (ch - z * ch) / Fin 2
   else minY b = ch - z * ch /\ maxY b = Fin 0 /\
        (forall q, z = Fin q -> nlt (minY b) (Fin 0) = true)).
Proof.
  intros Hc cw ch b. subst b cw ch. unfold getPanBounds. rewrite Hc.
  assert (Hmin : forall d : Z, (z * of_Z d <=? of_Z d) = false ->
            Math_min (Fin 0) (of_Z d - z * of_Z d) = of_Z d - z * of_Z d /\
            (forall q, z = Fin q -> nlt (of_Z d - z * of_Z d) (Fin 0) = true)).
  { intros d. unfold of_Z. destruct z as [q| | |]; cbn.
    - intros Hle. qfacts. split.
      + destruct (Qle_bool 0 (inject_Z d + - (q * inject_Z d))) eqn:E;
          [qfacts; lra | reflexivity].
      + intros q' _. apply negb_true_iff. apply Qle_bool_false. lra.
    - destruct (inject_Z d ?= 0)%Q; cbn; intros; try discriminate;
        split; try reflexivity; intros; discriminate.
    - destruct (inject_Z d ?= 0)%Q; cbn; intros; try discriminate;
        split; try reflexivity; intros; discriminate.
    - intros _. split; [reflexivity | intros; discriminate]. }
  destruct (z * of_Z (width canvas) <=? of_Z (width canvas)) eqn:Ew;
    destruct (z * of_Z (height canvas) <=? of_Z (height canvas)) eqn:Eh;
    cbn [andb minX maxX minY maxY].
  - repeat split.
  - destruct (Hmin _ Eh) as [-> Hn]. repeat split. exact Hn.
  - destruct (Hmin _ Ew) as [-> Hn]. repeat split. exact Hn.
  - destruct (Hmin _ Ew) as [-> Hn1]. destruct (Hmin _ Eh) as [-> Hn2].
    repeat split; assumption.
Qed.

(** ** Screen to natural transform *)

(** C9: with no canvas or no image, [eventToImageCoords] returns the origin
    [{x: 0, y: 0}]. *)
Theorem eventToImageCoords_missing (env : Env) (evt : MouseEvent) (s : State) :
  canvasRef s = None \/ imageRef s = None ->
  eventToImageCoords env evt s = Pt.mk (Fin 0) (Fin 0).
Proof.
  unfold eventToImageCoords.
  intros [H | H]; rewrite H; [reflexivity | destruct (canvasRef s); reflexivity].
Qed.

(** ** Annotation store *)

Lemma set_boxes_same (s : State) : set_boxes (boxes s) s = s.
Proof. destruct s; reflexivity. Qed.

Lemma rename_absent (id name : string) (l : list Box.t) :
  ~ In id (box_ids l) ->
  map (fun b => if String.eqb (Box.id b) id then with_name name b else b) l = l.
Proof.
  induction l as [|b l IH]; cbn; intros Hn; [reflexivity|].
  destruct (String.eqb_spec (Box.id b) id) as [E|E].
  - exfalso. apply Hn. left. exact E.
  - f_equal. apply IH. intro Hin. apply Hn. right. exact Hin.
Qed.

Lemma remove_absent (id : string) (l : list Box.t) :
  ~ In id (box_ids l) ->
  filter (fun b => negb (String.eqb (Box.id b) id)) l = l.
Proof.
  induction l as [|b l IH]; cbn; intros Hn; [reflexivity|].
  destruct (String.eqb_spec (Box.id b) id) as [E|E]; cbn.
  - exfalso. apply Hn. left. exact E.
  - f_equal. apply IH. intro Hin. apply Hn. right. exact Hin.
Qed.

Lemma box_ids_split (l1 l2 : list Box.t) (b : Box.t) :
  NoDup (box_ids (l1 ++ b :: l2)) ->
  ~ In (Box.id b) (box_ids l1) /\ ~ In (Box.id b) (box_ids l2).
Proof.
  unfold box_ids. rewrite map_app. cbn. intros H.
  apply NoDup_remove_2 in H. split; intro Hin; apply H; apply in_or_app; auto.
Qed.

(** C6: [updateBoxName] and [deleteBox] with an id that no annotation carries
    return the state as it was; with ids pairwise distinct and the id carried
    by the annotation [b], [updateBoxName] replaces the name of [b] alone and
    [deleteBox] removes [b] alone, the other annotations staying in order. *)
Theorem rename_remove_by_id (s : State) (id name : string) :
  (~ In id (box_ids (boxes s)) ->
   updateBoxName id name s = s /\ deleteBox id s = s)
  /\
  (forall l1 b l2,
      boxes s = l1 ++ b :: l2 -> Box.id b = id -> NoDup (box_ids (boxes s)) ->
      updateBoxName id name s = set_boxes (l1 ++ with_name name b :: l2) s /\
      deleteBox id s = set_boxes (l1 ++ l2) s).
Proof.
  split.
  - intros Hn. unfold updateBoxName, deleteBox.
    fold (with_name name).
    change (fun b => if (Box.id b =? id)%string
                     then Box.mk (Box.id b) (Box.x b) (Box.y b) (Box.w b) (Box.h b) name
                     else b)
      with (fun b => if (Box.id b =? id)%string then with_name name b else b).
    rewrite (rename_absent id name _ Hn), (remove_absent id _ Hn).
    split; apply set_boxes_same.
  - intros l1 b l2 Hb Hid Hnd. rewrite Hb in Hnd.
    destruct (box_ids_split _ _ _ Hnd) as [H1 H2]. rewrite Hid in H1, H2.
    unfold updateBoxName, deleteBox. rewrite Hb.
    change (fun b => if (Box.id b =? id)%string
                     then Box.mk (Box.id b) (Box.x b) (Box.y b) (Box.w b) (Box.h b) name
                     else b)
      with (fun b => if (Box.id b =? id)%string then with_name name b else b).
    rewrite map_app, filter_app. cbn [map filter].
    rewrite (rename_absent id name l1 H1), (rename_absent id name l2 H2).
    rewrite (remove_absent id l1 H1), (remove_absent id l2 H2).
    rewrite Hid, String.eqb_refl. cbn. split; reflexivity.
Qed.


(** ** Zoom *)

(** C3: after [zoomAt] the zoom is [min(8, max(0.2, oldZoom * factor))],
    whether or not the handler returned early, and so it is after a wheel
    event with Ctrl or Meta held, for the factor [Math.exp(-deltaY * 0.0015)];
    a product of at least [8] gives zoom [8], an infinite factor on a positive
    zoom gives zoom [8], and a product of at most [0.2] gives zoom [0.2]. *)
Theorem zoomAt_clamps (mx my factor : num) (s : State) :
  zoomRef (zoomAt mx my factor s)
    =n= Math_min maxZ (Math_max minZ (zoomRef s * factor))
  /\
  (forall (Math_exp : Q -> Q) env e canvas,
      canvasRef s = Some canvas -> ctrlKey e || metaKey e = true ->
      zoomRef (wheelHandler Math_exp env e s)
        =n= Math_min maxZ (Math_max minZ
              (zoomRef s * Fin (Math_exp (- deltaY e * (15 # 10000))%Q))))
  /\
  (forall z f, zoomRef s = Fin z -> factor = Fin f -> (8 <= z * f)%Q ->
               zoomRef (zoomAt mx my factor s) =n= Fin 8)
  /\
  (forall z, zoomRef s = Fin z -> (0 < z)%Q -> factor = PInf ->
             zoomRef (zoomAt mx my factor s) =n= Fin 8)
  /\
  (forall z f, zoomRef s = Fin z -> factor = Fin f -> (z * f <= 1 # 5)%Q ->
               zoomRef (zoomAt mx my factor s) =n= Fin (1 # 5)).
Proof.
  assert (G : forall a b k, zoomRef (zoomAt a b k s)
                =n= Math_min maxZ (Math_max minZ (zoomRef s * k))).
  { intros a b k. unfold zoomAt.
    destruct (Math_min maxZ (Math_max minZ (zoomRef s * k)) === zoomRef s) eqn:E.
    - apply num_equiv_sym, strict_eq_equiv, E.
    - cbn. apply num_equiv_refl. }
  pose proof (G mx my factor) as H.
  split; [exact H|].
  split.
  { intros Math_exp env e canvas Hc Hk. unfold wheelHandler. rewrite Hc, Hk.
    apply G. }
  repeat split.
  - intros z f Hz Hf Hp. eapply num_equiv_trans; [exact H|].
    rewrite Hz, Hf. unfold maxZ, minZ. cbn. qcases; cbn; lra.
  - intros z Hz Hpos Hf. eapply num_equiv_trans; [exact H|].
    rewrite Hz, Hf. unfold maxZ, minZ. cbn.
    destruct (z ?= 0)%Q eqn:E; qfacts; cbn; try (exfalso; lra). reflexivity.
  - intros z f Hz Hf Hp. eapply num_equiv_trans; [exact H|].
    rewrite Hz, Hf. unfold maxZ, minZ. cbn. qcases; cbn; lra.
Qed.

(** ** Surface sizing *)

Lemma getPanBounds_canvas (s s' : State) (z : num) :
  canvasRef s = canvasRef s' -> getPanBounds s z = getPanBounds s' z.
Proof. unfold getPanBounds. intros ->. reflexivity. Qed.

Lemma clampPan_canvas (s s' : State) (z : num) (p : Pt.t) :
  canvasRef s = canvasRef s' -> clampPan s z p = clampPan s' z p.
Proof. unfold clampPan. intros H. rewrite (getPanBounds_canvas s s' z H). reflexivity. Qed.

Lemma clamp_idempotent (m M v : num) :
  Math_min M (Math_max m (Math_min M (Math_max m v))) = Math_min M (Math_max m v).
Proof.
  destruct m as [m| | |], M as [M| | |], v as [v| | |]; cbn; try reflexivity;
    qcases; try reflexivity; exfalso; lra.
Qed.

Lemma clampPan_idempotent (s : State) (z : num) (p : Pt.t) :
  clampPan s z (clampPan s z p) = clampPan s z p.
Proof. unfold clampPan. cbn. rewrite !clamp_idempotent. reflexivity. Qed.

Lemma set_px_idempotent (old : option num) (n : num) :
  set_px (set_px old n) n = set_px old n.
Proof. destruct n as [q| | |]; cbn; try reflexivity. destruct (Qle_bool 0 q) eqn:E; cbn; rewrite ?E; reflexivity. Qed.

(** C7: a second [fitCanvasToContainer] with the same inputs returns the state
    of the first; and when the css and pixel sizes it computes are the ones
    the canvas has, it returns the state it was given. *)
Theorem fitCanvasToContainer_idempotent (env : Env) (s : State) :
  fitCanvasToContainer env (fitCanvasToContainer env s) = fitCanvasToContainer env s
  /\
  (forall canvas container img,
      canvasRef s = Some canvas -> containerRef s = Some container ->
      imageRef s = Some img ->
      let nextCssWidth :=
        Math_min (of_Z (clientWidth container - 32)) (of_N (naturalWidth img)) in
      let nextCssHeight :=
        Math_round (nextCssWidth / (of_N (naturalWidth img) / of_N (naturalHeight img))) in
      let nextPixelWidth := Math_round (nextCssWidth * dpr_of env) in
      let nextPixelHeight := Math_round (nextCssHeight * dpr_of env) in
      (parseInt_px (style_width canvas) === nextCssWidth) = true ->
      (parseInt_px (style_height canvas) === nextCssHeight) = true ->
      (of_Z (width canvas) === nextPixelWidth) = true ->
      (of_Z (height canvas) === nextPixelHeight) = true ->
      fitCanvasToContainer env s = s).
Proof.
  split.
  - unfold fitCanvasToContainer at 2.
    destruct (canvasRef s) as [canvas|] eqn:Hc;
      [|unfold fitCanvasToContainer; rewrite Hc; reflexivity].
    destruct (containerRef s) as [container|] eqn:Hk;
      [|unfold fitCanvasToContainer; rewrite Hc, Hk; reflexivity].
    destruct (imageRef s) as [img|] eqn:Hi;
      [|unfold fitCanvasToContainer; rewrite Hc, Hk, Hi; reflexivity].
    cbv zeta.
    match goal with |- context [if ?t then s else ?e] => destruct t eqn:Ht end.
    + unfold fitCanvasToContainer. rewrite Hc, Hk, Hi. cbv zeta. rewrite Ht.
      reflexivity.
    + match goal with
      | |- fitCanvasToContainer env ?t = _ => remember t as s1 eqn:Es1
      end.
      assert (E : fitCanvasToContainer env s = s1).
      { unfold fitCanvasToContainer. rewrite Hc, Hk, Hi. cbv zeta. rewrite Ht.
        symmetry. exact Es1. }
      rewrite E. subst s1. unfold fitCanvasToContainer.
      cbn [canvasRef containerRef imageRef set_pan set_imageScroll set_canvasRef].
      rewrite Hk, Hi. cbv zeta.
      match goal with |- context [if ?t then _ else _] => destruct t end;
        [reflexivity|].
      cbn [canvasRef containerRef imageRef set_pan set_imageScroll set_canvasRef
           zoomRef panRef zoom pan spaceDown isPanning panStartRef boxes isDrawing
           startPt currentPt imageScroll imageScrollRef].
      cbn [style_width style_height width height].
      rewrite !set_px_idempotent.
      match goal with
      | |- context [clampPan ?a ?z (clampPan ?b ?z ?p)] =>
          rewrite (clampPan_canvas a b z (clampPan b z p) eq_refl);
          rewrite (clampPan_idempotent b z p)
      end.
      reflexivity.
  - intros canvas container img Hc Hk Hi w h pw ph H1 H2 H3 H4.
    unfold fitCanvasToContainer. rewrite Hc, Hk, Hi. cbv zeta.
    fold w. fold h. fold pw. fold ph. rewrite H1, H2, H3, H4. reflexivity.
Qed.

(** ** The pan invariant *)

Lemma getPanBounds_finite (s : State) (q : Q) :
  exists a b c d,
    getPanBounds s (Fin q) = mkBounds (Fin a) (Fin b) (Fin c) (Fin d) /\
    (a <= b)%Q /\ (c <= d)%Q.
Proof.
  unfold getPanBounds. destruct (canvasRef s) as [canvas|].
  - unfold of_Z. cbn.
    generalize (inject_Z (width canvas)) (inject_Z (height canvas)). intros cw ch.
    qcases; cbn; do 4 eexists; (split; [reflexivity|]); lra.
  - do 4 eexists. split; [reflexivity|]. lra.
Qed.

Lemma clamp_within (m M v : Q) :
  (m <= M)%Q ->
  exists r, Math_min (Fin M) (Math_max (Fin m) (Fin v)) = Fin r /\ (m <= r <= M)%Q.
Proof.
  intros H. cbn. qcases; cbn; qcases; eexists; (split; [reflexivity|]); lra.
Qed.

Lemma clampPan_in_bounds (s : State) (q : Q) (p : Pt.t) :
  finite_pt p ->
  let b := getPanBounds s (Fin q) in
  let r := clampPan s (Fin q) p in
  within (minX b) (Pt.x r) (maxX b) /\ within (minY b) (Pt.y r) (maxY b) /\
  finite_pt r.
Proof.
  intros (vx & vy & ->). unfold clampPan.
  destruct (getPanBounds_finite s q) as (a & b & c & d & -> & Hab & Hcd).
  cbn [minX maxX minY maxY Pt.x Pt.y].
  destruct (clamp_within a b vx Hab) as (rx & -> & Hrx).
  destruct (clamp_within c d vy Hcd) as (ry & -> & Hry).
  unfold within. cbn.
  repeat split; try (apply Qle_bool_iff; lra).
  exists rx, ry. reflexivity.
Qed.

(** Writing a clamped finite point as the pan establishes the invariant. *)
Lemma Inv_set_pan_clamped (s : State) (p : Pt.t) :
  view_ok s -> finite_pt p -> Inv (set_pan (clampPan s (zoomRef s) p) s).
Proof.
  intros Hv Hp. pose proof Hv as ((q & Hq & Hr) & Hz & Hs).
  split; [exact Hv|].
  unfold pan_in_bounds.
  cbn [pan panRef zoomRef set_pan].
  rewrite (getPanBounds_canvas (set_pan (clampPan s (zoomRef s) p) s) s _ eq_refl).
  rewrite Hq.
  destruct (clampPan_in_bounds s q p Hp) as (Hx & Hy & Hf).
  repeat split; try apply Hx; try apply Hy. exact Hf.
Qed.

Lemma view_ok_set_zoom (s : State) (q : Q) :
  (1 # 5 <= q <= 8)%Q -> finite_pt (panStartRef s) -> view_ok (set_zoom (Fin q) s).
Proof.
  intros Hq Hs. repeat split; try exact Hs. exists q. split; [reflexivity | exact Hq].
Qed.

Lemma dpr_finite (env : Env) : exists d, dpr_of env = Fin d.
Proof.
  unfold dpr_of, or_default.
  destruct (Qeq_bool (devicePixelRatio env) 0); eexists; reflexivity.
Qed.

Lemma canvasX_finite (env : Env) (x : Q) : exists c, canvasX env x = Fin c.
Proof.
  unfold canvasX. destruct (dpr_finite env) as (d & ->). eexists. reflexivity.
Qed.

Lemma canvasY_finite (env : Env) (y : Q) : exists c, canvasY env y = Fin c.
Proof.
  unfold canvasY. destruct (dpr_finite env) as (d & ->). eexists. reflexivity.
Qed.

Lemma Inv_resetView (s : State) : finite_pt (panStartRef s) -> Inv (resetView s).
Proof.
  intros Hs. unfold resetView.
  apply (Inv_set_pan_clamped (set_zoom (Fin 1) s) (Pt.mk (Fin 0) (Fin 0))).
  - apply view_ok_set_zoom; [lra | exact Hs].
  - exists 0, 0. reflexivity.
Qed.

Lemma Inv_fitCanvasToContainer (env : Env) (s : State) :
  Inv s -> Inv (fitCanvasToContainer env s).
Proof.
  intros HI. unfold fitCanvasToContainer.
  destruct (canvasRef s) as [canvas|]; [|exact HI].
  destruct (containerRef s) as [container|]; [|exact HI].
  destruct (imageRef s) as [img|]; [|exact HI].
  cbv zeta.
  match goal with |- context [if ?t then s else _] => destruct t end; [exact HI|].
  destruct HI as (Hv & _ & _ & Hf).
  match goal with
  | |- Inv (set_pan (clampPan ?t _ _) _) =>
      apply (Inv_set_pan_clamped t (panRef t))
  end.
  - exact Hv.
  - exact Hf.
Qed.

Lemma Inv_zoomAt (mx my factor : Q) (s : State) :
  Inv s -> Inv (zoomAt (Fin mx) (Fin my) (Fin factor) s).
Proof.
  intros HI. pose proof HI as (((q & Hq & Hr) & Hz & Hs) & _ & _ & (px & py & Hp)).
  unfold zoomAt. rewrite Hq, Hp. cbn [Pt.x Pt.y].
  destruct (clamp_within (1 # 5) 8 (q * factor)) as (r & Hnew & Hrange); [lra|].
  change (Fin q * Fin factor) with (Fin (q * factor)).
  unfold maxZ, minZ. rewrite Hnew.
  destruct (Fin r === Fin q); [exact HI|].
  assert (Hq0 : Qeq_bool q 0 = false) by (apply Qeq_bool_false; lra).
  cbn [nsub nadd nopp nmul ndiv]. rewrite Hq0.
  match goal with
  | |- Inv (set_pan (clampPan s ?z ?p) ?t) =>
      rewrite (clampPan_canvas s t z p eq_refl);
      apply (Inv_set_pan_clamped t p)
  end.
  - apply view_ok_set_zoom; [exact Hrange | exact Hs].
  - eexists _, _. reflexivity.
Qed.

(** The invariant reads the canvas, the zoom, the pan and the pan start only. *)
Lemma Inv_same_view (s s' : State) :
  canvasRef s' = canvasRef s -> zoom s' = zoom s -> zoomRef s' = zoomRef s ->
  pan s' = pan s -> panRef s' = panRef s -> panStartRef s' = panStartRef s ->
  Inv s -> Inv s'.
Proof.
  intros Hc Hz Hzr Hp Hpr Hps (Hv & Hb & Hm & Hf).
  unfold Inv, view_ok, pan_in_bounds in *.
  rewrite (getPanBounds_canvas s' s _ Hc), Hz, Hzr, Hp, Hpr, Hps.
  repeat split; try apply Hv; try apply Hb; assumption.
Qed.

Ltac same_view := eapply Inv_same_view; [..|eassumption]; reflexivity.

Lemma Inv_set_panStartRef (s : State) (p : Pt.t) :
  Inv s -> finite_pt p -> Inv (set_panStartRef p s).
Proof.
  intros (((q & Hq & Hr) & Hz & _) & Hb & Hm & Hf) Hp.
  repeat split; try apply Hb; try assumption.
  exists q. split; assumption.
Qed.

Lemma set_pan_written (t : State) (p : Pt.t) :
  pan_written_clamped (set_pan (clampPan t (zoomRef t) p) t).
Proof.
  exists p. split; [|reflexivity]. cbn [panRef set_pan zoomRef].
  apply clampPan_canvas. reflexivity.
Qed.

Lemma resetView_written (t : State) : pan_written_clamped (resetView t).
Proof.
  unfold resetView.
  apply (set_pan_written (set_zoom (Fin 1) t) (Pt.mk (Fin 0) (Fin 0))).
Qed.

Lemma fit_written (env : Env) (s : State) :
  view_untouched s (fitCanvasToContainer env s) \/
  pan_written_clamped (fitCanvasToContainer env s).
Proof.
  unfold fitCanvasToContainer.
  destruct (canvasRef s) as [canvas|] eqn:Hc; [|left; repeat split; auto].
  destruct (containerRef s) as [container|]; [|left; repeat split; auto].
  destruct (imageRef s) as [img|]; [|left; repeat split; auto].
  cbv zeta.
  match goal with |- context [if ?t then s else _] => destruct t end;
    [left; repeat split; auto|].
  right.
  match goal with
  | |- pan_written_clamped (set_pan (clampPan ?t _ _) _) =>
      apply (set_pan_written t (panRef t))
  end.
Qed.

Lemma zoomAt_written (mx my factor : num) (s : State) :
  view_untouched s (zoomAt mx my factor s) \/
  pan_written_clamped (zoomAt mx my factor s).
Proof.
  unfold zoomAt.
  match goal with |- context [if ?t then s else _] => destruct t end;
    [left; repeat split; auto|].
  right.
  match goal with
  | |- pan_written_clamped (set_pan (clampPan s ?z ?p) ?t) =>
      rewrite (clampPan_canvas s t z p eq_refl);
      apply (set_pan_written t p)
  end.
Qed.

Section Reachability.

Variable Math_exp : Q -> Q.

Lemma Inv_initial canvas container : Inv (initial canvas container).
Proof.
  assert (Hv : view_ok (initial canvas container)).
  { repeat split; [exists 1; split; [reflexivity | lra] | exists 0, 0; reflexivity]. }
  split; [exact Hv|].
  repeat split; try (exists 0, 0; reflexivity).
  all: unfold getPanBounds; cbn; destruct canvas as [c|]; cbn; try reflexivity.
  all: generalize (inject_Z (width c)) (inject_Z (height c)); intros cw ch.
  all: qcases; cbn; try reflexivity; try (apply Qle_bool_iff; qlra); exfalso; qlra.
Qed.

Lemma Inv_wheelHandler env e s : Inv s -> Inv (wheelHandler Math_exp env e s).
Proof.
  intros HI. unfold wheelHandler.
  destruct (canvasRef s); [|exact HI].
  destruct (ctrlKey e || metaKey e).
  - destruct (canvasX_finite env (wheelX e)) as (mx & ->).
    destruct (canvasY_finite env (wheelY e)) as (my & ->).
    apply Inv_zoomAt, HI.
  - destruct (spaceDown s).
    + pose proof HI as (Hv & _ & _ & (px & py & Hp)).
      apply Inv_set_pan_clamped; [exact Hv|].
      rewrite Hp. cbn [Pt.x Pt.y].
      destruct (deltaMode e =? 1)%Z, (shiftKey e); eexists _, _; reflexivity.
    + destruct (containerRef s); [|exact HI]. same_view.
Qed.

Lemma Inv_endInteractions uuid s : Inv s -> Inv (endInteractions uuid s).
Proof.
  intros HI. unfold endInteractions.
  cbn [isDrawing startPt currentPt set_isPanning].
  destruct (isDrawing s); [|same_view].
  destruct (startPt s); [|same_view].
  destruct (currentPt s); [|same_view].
  destruct ((_ >? _) && (_ >? _)); same_view.
Qed.

Lemma Inv_step env ev s : Inv s -> Inv (step Math_exp env ev s).
Proof.
  intros HI. pose proof HI as (Hv & _ & _ & (px & py & Hp)).
  pose proof Hv as (_ & _ & Hs).
  destruct ev; cbn [step].
  - (* MouseDown *)
    unfold onMouseDown. destruct (imageRef s); [|exact HI].
    destruct (spaceDown s); [|same_view].
    cbn [canvasRef set_isPanning]. destruct (canvasRef s); [|same_view].
    destruct (canvasX_finite env (clientX e)) as (mx & Hx).
    destruct (canvasY_finite env (clientY e)) as (my & Hy).
    apply Inv_set_panStartRef; [same_view|].
    cbn [panRef set_isPanning].
    rewrite Hx, Hy, Hp. eexists _, _. reflexivity.
  - (* MouseMove *)
    unfold onMouseMove. destruct (isPanning s).
    + destruct (canvasRef s); [|exact HI].
      apply Inv_set_pan_clamped; [exact Hv|].
      destruct (canvasX_finite env (clientX e)) as (mx & ->).
      destruct (canvasY_finite env (clientY e)) as (my & ->).
      destruct Hs as (a & b & ->). eexists _, _. reflexivity.
    + destruct (isDrawing s); cbn [negb]; [same_view | exact HI].
  - apply Inv_endInteractions, HI.
  - apply Inv_endInteractions, HI.
  - apply Inv_wheelHandler, HI.
  - unfold onKeyDown. destruct (code =? "Space")%string; [same_view | exact HI].
  - unfold onKeyUp. destruct (code =? "Space")%string; [same_view | exact HI].
  - apply Inv_resetView, Hs.
  - same_view.
  - same_view.
  - apply Inv_resetView, Hs.
  - apply Inv_resetView, Hs.
  - same_view.
  - apply Inv_resetView.
    assert (H : Inv (fitCanvasToContainer env (set_imageRef (Some img) s))).
    { apply Inv_fitCanvasToContainer. same_view. }
    apply H.
  - same_view.
  - destruct (containerRef s); [same_view | exact HI].
  - apply Inv_fitCanvasToContainer, HI.
Qed.

Lemma reachable_Inv s : reachable Math_exp s -> Inv s.
Proof.
  induction 1 as [canvas container | env ev s _ IH].
  - apply Inv_initial.
  - apply Inv_step, IH.
Qed.

Lemma step_written env ev s :
  view_untouched s (step Math_exp env ev s) \/
  pan_written_clamped (step Math_exp env ev s).
Proof.
  assert (Hsame : forall t, view_untouched t t) by (intro; repeat split).
  destruct ev; cbn [step].
  - left. unfold onMouseDown. destruct (imageRef s); [|apply Hsame].
    destruct (spaceDown s); [|repeat split].
    cbn [canvasRef set_isPanning]. destruct (canvasRef s); repeat split.
  - unfold onMouseMove. destruct (isPanning s).
    + destruct (canvasRef s); [right; apply set_pan_written | left; apply Hsame].
    + left. destruct (isDrawing s); repeat split.
  - left. unfold onMouseUp, endInteractions.
    cbn [isDrawing startPt currentPt set_isPanning].
    destruct (isDrawing s), (startPt s), (currentPt s); try (repeat split; fail).
    destruct ((_ >? _) && (_ >? _)); repeat split.
  - left. unfold onMouseLeave, endInteractions.
    cbn [isDrawing startPt currentPt set_isPanning].
    destruct (isDrawing s), (startPt s), (currentPt s); try (repeat split; fail).
    destruct ((_ >? _) && (_ >? _)); repeat split.
  - unfold wheelHandler. destruct (canvasRef s); [|left; apply Hsame].
    destruct (ctrlKey e || metaKey e); [apply zoomAt_written|].
    destruct (spaceDown s); [right; apply set_pan_written|].
    left. destruct (containerRef s); repeat split.
  - left. unfold onKeyDown. destruct (code =? "Space")%string; repeat split.
  - left. unfold onKeyUp. destruct (code =? "Space")%string; repeat split.
  - right. apply resetView_written.
  - left. repeat split.
  - left. repeat split.
  - right. apply resetView_written.
  - right. apply resetView_written.
  - left. repeat split.
  - right. apply resetView_written.
  - left. repeat split.
  - left. destruct (containerRef s); repeat split.
  - apply fit_written.
Qed.

(** C1: in every reachable state the pan lies within [getPanBounds] of the
    current zoom and canvas size, the React [pan] state equals
    [panRef.current], and the zoom is in [0.2, 8]; and every handler either
    leaves pan, zoom and canvas as they were or writes as pan a value that
    [clampPan] returned for the zoom and canvas of the state it leaves. *)
Theorem pan_always_in_bounds :
  (forall s, reachable Math_exp s ->
             pan_in_bounds s /\ pan s = panRef s /\ within minZ (zoomRef s) maxZ)
  /\
  (forall env ev s,
      view_untouched s (step Math_exp env ev s) \/
      pan_written_clamped (step Math_exp env ev s)).
Proof.
  split.
  - intros s Hr. destruct (reachable_Inv s Hr) as (Hv & Hb & Hm & _).
    repeat split; try apply Hb; try exact Hm;
      destruct Hv as ((q & -> & Hq) & _); cbn; apply Qle_bool_iff; lra.
  - apply step_written.
Qed.

End Reachability.

(** ** Range of the screen to natural transform *)

Lemma Qle_bool_inject_Z (a b : Z) : Qle_bool (inject_Z a) (inject_Z b) = (a <=? b)%Z.
Proof. unfold Qle_bool. cbn. rewrite !Z.mul_1_r. reflexivity. Qed.

Lemma Math_min_of_Z (a b : Z) : Math_min (of_Z a) (of_Z b) = of_Z (Z.min a b).
Proof.
  unfold of_Z. cbn. rewrite Qle_bool_inject_Z.
  destruct (Z.leb_spec a b); [rewrite Z.min_l by lia | rewrite Z.min_r by lia];
    reflexivity.
Qed.

Lemma Math_max_of_Z (a b : Z) : Math_max (of_Z a) (of_Z b) = of_Z (Z.max a b).
Proof.
  unfold of_Z. cbn. rewrite Qle_bool_inject_Z.
  destruct (Z.leb_spec b a); [rewrite Z.max_l by lia | rewrite Z.max_r by lia];
    reflexivity.
Qed.

Lemma dpr_of_dprQ (env : Env) : dpr_of env = Fin (dprQ env).
Proof.
  unfold dpr_of, dprQ, or_default.
  destruct (Qeq_bool (devicePixelRatio env) 0); reflexivity.
Qed.

Lemma inject_Z_nonzero (k : Z) : k <> 0%Z -> Qeq_bool (inject_Z k) 0 = false.
Proof.
  intros H. apply Qeq_bool_false. intro E.
  apply H. apply (inject_Z_injective k 0). exact E.
Qed.

(** The transform on a non-degenerate canvas, for a finite non-zero zoom and a
    finite pan. *)
Lemma eventToImageCoords_finite env evt s canvas img z px py :
  canvasRef s = Some canvas -> imageRef s = Some img ->
  width canvas <> 0%Z -> height canvas <> 0%Z ->
  zoomRef s = Fin z -> ~ (z == 0)%Q -> panRef s = Pt.mk (Fin px) (Fin py) ->
  eventToImageCoords env evt s =
    Pt.mk
      (of_Z (Z.max 0 (Z.min (Z.of_N (naturalWidth img))
         (round_half_up
            ((((clientX evt - rect_left env) * dprQ env - px) / z)
             * (inject_Z (Z.of_N (naturalWidth img)) / inject_Z (width canvas)))))))
      (of_Z (Z.max 0 (Z.min (Z.of_N (naturalHeight img))
         (round_half_up
            ((((clientY evt - rect_top env) * dprQ env - py) / z)
             * (inject_Z (Z.of_N (naturalHeight img)) / inject_Z (height canvas))))))).
Proof.
  intros Hc Hi Hw Hh Hz Hz0 Hp.
  unfold eventToImageCoords. rewrite Hc, Hi, Hz, Hp, dpr_of_dprQ.
  apply Qeq_bool_false in Hz0.
  unfold of_N, of_Z. cbn [Pt.x Pt.y nsub nadd nopp nmul ndiv].
  rewrite Hz0, (inject_Z_nonzero _ Hw), (inject_Z_nonzero _ Hh).
  cbn [nmul Math_round].
  change (Fin 0) with (of_Z 0).
  fold (of_Z (Z.of_N (naturalWidth img))). fold (of_Z (Z.of_N (naturalHeight img))).
  rewrite !Math_min_of_Z, !Math_max_of_Z. reflexivity.
Qed.

Lemma clamp_coord_ok (v : num) (n : N) :
  coord_ok (Math_max (Fin 0) (Math_min (of_N n) (Math_round v))) n.
Proof.
  unfold of_N. change (Fin 0) with (of_Z 0).
  destruct v as [q| | |]; cbn [Math_round].
  - right. rewrite Math_min_of_Z, Math_max_of_Z. eexists. split; [reflexivity|lia].
  - right. exists (Z.of_N n). split; [|lia].
    change (Math_min (of_Z (Z.of_N n)) PInf) with (of_Z (Z.of_N n)).
    rewrite Math_max_of_Z. f_equal. lia.
  - right. exists 0%Z. split; [reflexivity|lia].
  - left. reflexivity.
Qed.

Lemma eventToImageCoords_pt_ok env evt s img :
  imageRef s = Some img -> pt_ok img (eventToImageCoords env evt s).
Proof.
  intros Hi. unfold eventToImageCoords. rewrite Hi.
  destruct (canvasRef s) as [canvas|].
  - split; apply clamp_coord_ok.
  - split; right; exists 0%Z; (split; [reflexivity|lia]).
Qed.

Lemma round_half_up_floor_ceiling (v : Q) :
  (Qfloor v <= round_half_up v <= Qceiling v)%Z.
Proof.
  unfold round_half_up. split.
  - apply Qfloor_resp_le. lra.
  - pose proof (Qle_ceiling v) as Hc. pose proof (Qfloor_le (v + (1 # 2))) as Hf.
    assert (H : (inject_Z (Qfloor (v + (1 # 2))) < inject_Z (Qceiling v + 1))%Q).
    { rewrite inject_Z_plus. change (inject_Z 1) with 1%Q. lra. }
    rewrite <- Zlt_Qlt in H. lia.
Qed.

(** One axis of the transform on a canvas whose pixel size on that axis is
    not zero, for a finite non-zero zoom and a finite pan. *)
Lemma eventToImageCoords_axis (c p z : Q) (n : N) (w : Z) :
  w <> 0%Z -> ~ (z == 0)%Q ->
  Math_max (Fin 0)
    (Math_min (of_N n) (Math_round ((Fin c - Fin p) / Fin z * (of_N n / of_Z w))))
  = of_Z (Z.max 0 (Z.min (Z.of_N n)
            (round_half_up (((c - p) / z) * (inject_Z (Z.of_N n) / inject_Z w))))).
Proof.
  intros Hw Hz. apply Qeq_bool_false in Hz.
  unfold of_N, of_Z. cbn [nsub nadd nopp nmul ndiv].
  rewrite Hz, (inject_Z_nonzero _ Hw). cbn [nmul Math_round].
  change (Fin 0) with (of_Z 0). fold (of_Z (Z.of_N n)).
  rewrite Math_min_of_Z, Math_max_of_Z. reflexivity.
Qed.

(** The range of the transform.  In a reachable state with an image and a
    canvas, each coordinate [eventToImageCoords] returns is [NaN] or an
    integer of [[0, naturalWidth]], respectively [[0, naturalHeight]].  On an
    axis where the canvas has a non-zero pixel size the coordinate is such an
    integer: the client coordinate minus the canvas origin, times the device
    pixel ratio, minus the pan, divided by the zoom, times natural size over
    canvas size, rounded to a neighbouring integer and clamped. *)
Theorem eventToImageCoords_in_range (Math_exp : Q -> Q) env evt s canvas img :
  reachable Math_exp s ->
  canvasRef s = Some canvas -> imageRef s = Some img ->
  exists z px py,
    zoomRef s = Fin z /\ panRef s = Pt.mk (Fin px) (Fin py) /\
    pt_ok img (eventToImageCoords env evt s) /\
    (width canvas <> 0%Z ->
     let v := ((((clientX evt - rect_left env) * dprQ env - px) / z)
               * (inject_Z (Z.of_N (naturalWidth img)) / inject_Z (width canvas)))%Q in
     exists kx : Z,
       Pt.x (eventToImageCoords env evt s) = of_Z kx /\
       (0 <= kx <= Z.of_N (naturalWidth img))%Z /\
       (Z.max 0 (Z.min (Z.of_N (naturalWidth img)) (Qfloor v)) <= kx
        <= Z.max 0 (Z.min (Z.of_N (naturalWidth img)) (Qceiling v)))%Z) /\
    (height canvas <> 0%Z ->
     let v := ((((clientY evt - rect_top env) * dprQ env - py) / z)
               * (inject_Z (Z.of_N (naturalHeight img)) / inject_Z (height canvas)))%Q in
     exists ky : Z,
       Pt.y (eventToImageCoords env evt s) = of_Z ky /\
       (0 <= ky <= Z.of_N (naturalHeight img))%Z /\
       (Z.max 0 (Z.min (Z.of_N (naturalHeight img)) (Qfloor v)) <= ky
        <= Z.max 0 (Z.min (Z.of_N (naturalHeight img)) (Qceiling v)))%Z).
Proof.
  intros Hr Hc Hi.
  destruct (reachable_Inv Math_exp s Hr)
    as (((z & Hz & Hzr) & _) & _ & _ & (px & py & Hp)).
  exists z, px, py.
  split; [exact Hz|]. split; [exact Hp|].
  split; [apply eventToImageCoords_pt_ok, Hi|].
  assert (Hz0 : ~ (z == 0)%Q) by lra.
  split; intros Hw v.
  - pose proof (round_half_up_floor_ceiling v) as Hv.
    exists (Z.max 0 (Z.min (Z.of_N (naturalWidth img)) (round_half_up v))).
    split; [|lia].
    unfold eventToImageCoords. rewrite Hc, Hi, Hz, Hp, dpr_of_dprQ.
    cbn [Pt.x Pt.y]. unfold v.
    rewrite <- (eventToImageCoords_axis _ px z (naturalWidth img) (width canvas) Hw Hz0).
    reflexivity.
  - pose proof (round_half_up_floor_ceiling v) as Hv.
    exists (Z.max 0 (Z.min (Z.of_N (naturalHeight img)) (round_half_up v))).
    split; [|lia].
    unfold eventToImageCoords. rewrite Hc, Hi, Hz, Hp, dpr_of_dprQ.
    cbn [Pt.x Pt.y]. unfold v.
    rewrite <- (eventToImageCoords_axis _ py z (naturalHeight img) (height canvas) Hw Hz0).
    reflexivity.
Qed.

(** C4: on a canvas of pixel height 0 the transform returns [NaN].  The
    1000 x 1 image loaded into a container 400 wide after padding is fitted to
    a 400 x 0 canvas; there the vertical scale [naturalHeight / canvas.height]
    is [Infinity], a pointer on the top edge of the canvas gives
    [0 * Infinity], and [Math.max(0, Math.min(naturalHeight, NaN))] is [NaN],
    which is not in [[0, naturalHeight]]; the x of the same point is 13. *)
Lemma eventToImageCoords_NaN_on_flat_canvas :
  reachable (fun _ => 1%Q) strip_state /\
  canvasRef strip_state = Some (mkCanvas 400 0 (Some (Fin 400)) (Some (Fin 0))) /\
  imageRef strip_state = Some strip_image /\
  eventToImageCoords strip_env (mkMouseEvent 5 0) strip_state = Pt.mk (Fin 13) NaN /\
  ~ within (Fin 0)
      (Pt.y (eventToImageCoords strip_env (mkMouseEvent 5 0) strip_state))
      (of_N (naturalHeight strip_image)).
Proof.
  split; [apply reachable_step, reachable_initial|].
  split; [vm_compute; reflexivity|].
  split; [vm_compute; reflexivity|].
  split; [vm_compute; reflexivity|].
  intros [H _]. vm_compute in H. discriminate H.
Qed.

(** ** Committed annotations lie within the image *)

Lemma Qabs_inject_Z_sub (a b : Z) :
  (Qabs (inject_Z a + - inject_Z b) == inject_Z (Z.abs (a - b)))%Q.
Proof. unfold Qeq. cbn. f_equal. f_equal. lia. Qed.

Lemma ngt_abs_of_Z (a b : Z) :
  (Math_abs (of_Z a - of_Z b) >? Fin 5) = true -> (5 < Z.abs (a - b))%Z.
Proof.
  unfold of_Z, ngt, nsub. cbn [nopp nadd Math_abs nlt].
  intros H. apply negb_true_iff in H. qfacts.
  rewrite Qabs_inject_Z_sub in H.
  change 5%Q with (inject_Z 5) in H. rewrite Zlt_Qlt. exact H.
Qed.

Lemma ngt_abs_NaN_l (a : num) : (Math_abs (NaN - a) >? Fin 5) = false.
Proof. destruct a; reflexivity. Qed.

Lemma ngt_abs_NaN_r (a : num) : (Math_abs (a - NaN) >? Fin 5) = false.
Proof. destruct a; reflexivity. Qed.

(** The commit of a gesture whose points are fine. *)
Lemma endInteractions_box_in_image uuid img s :
  gesture_ok img s ->
  boxes (endInteractions uuid s) = boxes s \/
  exists b, boxes (endInteractions uuid s) = boxes s ++ [b] /\ box_in_image img b.
Proof.
  intros (_ & Hs & Hc). unfold endInteractions.
  cbn [isDrawing startPt currentPt set_isPanning].
  destruct (isDrawing s); [|left; reflexivity].
  destruct (startPt s) as [sp|]; [|left; reflexivity].
  destruct (currentPt s) as [cp|]; [|left; reflexivity].
  cbv zeta.
  destruct ((_ >? _) && (_ >? _)) eqn:E; [|left; reflexivity].
  right. eexists. split; [reflexivity|].
  apply andb_true_iff in E. destruct E as [Ew Eh].
  destruct Hs as [Hsx Hsy], Hc as [Hcx Hcy].
  destruct Hsx as [Hsx | (sx & Hsx & Rsx)];
    [rewrite Hsx, ngt_abs_NaN_r in Ew; discriminate|].
  destruct Hcx as [Hcx | (cx & Hcx & Rcx)];
    [rewrite Hcx, ngt_abs_NaN_l in Ew; discriminate|].
  destruct Hsy as [Hsy | (sy & Hsy & Rsy)];
    [rewrite Hsy, ngt_abs_NaN_r in Eh; discriminate|].
  destruct Hcy as [Hcy | (cy & Hcy & Rcy)];
    [rewrite Hcy, ngt_abs_NaN_l in Eh; discriminate|].
  rewrite Hsx, Hcx, Hsy, Hcy in *.
  apply ngt_abs_of_Z in Ew. apply ngt_abs_of_Z in Eh.
  exists (Z.min sx cx), (Z.min sy cy), (Z.abs (cx - sx)), (Z.abs (cy - sy)).
  cbn [Box.x Box.y Box.w Box.h]. rewrite !Math_min_of_Z.
  repeat split; try apply num_equiv_refl; try lia;
    unfold of_Z, nsub; cbn [nopp nadd Math_abs num_equiv]; apply Qabs_inject_Z_sub.
Qed.

Lemma store_untouched_refl (s : State) : store_untouched s s.
Proof. repeat split. Qed.

Lemma store_untouched_resetView (s : State) : store_untouched s (resetView s).
Proof. repeat split. Qed.

Lemma store_untouched_fit (env : Env) (s : State) :
  store_untouched s (fitCanvasToContainer env s).
Proof.
  unfold fitCanvasToContainer.
  destruct (canvasRef s); [|apply store_untouched_refl].
  destruct (containerRef s); [|apply store_untouched_refl].
  destruct (imageRef s) eqn:Hi; [|apply store_untouched_refl].
  cbv zeta.
  match goal with |- context [if ?t then s else _] => destruct t end;
    [apply store_untouched_refl|].
  repeat split.
Qed.

Lemma store_untouched_zoomAt (mx my factor : num) (s : State) :
  store_untouched s (zoomAt mx my factor s).
Proof.
  unfold zoomAt.
  match goal with |- context [if ?t then s else _] => destruct t end; repeat split.
Qed.

Lemma store_untouched_wheelHandler Math_exp env e (s : State) :
  store_untouched s (wheelHandler Math_exp env e s).
Proof.
  unfold wheelHandler. destruct (canvasRef s); [|apply store_untouched_refl].
  destruct (ctrlKey e || metaKey e); [apply store_untouched_zoomAt|].
  destruct (spaceDown s); [repeat split|].
  destruct (containerRef s); repeat split.
Qed.

Lemma gesture_ok_untouched img (s s' : State) :
  store_untouched s s' -> gesture_ok img s -> gesture_ok img s'.
Proof.
  intros (Hi & Hs & Hc & _) (Gi & Gs & Gc). unfold gesture_ok.
  rewrite Hi, Hs, Hc. repeat split; assumption.
Qed.

Lemma gesture_ok_endInteractions img uuid s :
  gesture_ok img s -> gesture_ok img (endInteractions uuid s).
Proof.
  intros (Gi & Gs & Gc). unfold endInteractions.
  cbn [isDrawing startPt currentPt set_isPanning].
  destruct (isDrawing s) eqn:Ed, (startPt s) eqn:Es, (currentPt s) eqn:Ec;
    cbv zeta; try destruct ((_ >? _) && (_ >? _));
    unfold gesture_ok; cbn; rewrite ?Es, ?Ec; repeat split;
    first [assumption | apply Gs | apply Gc].
Qed.

Ltac gesture_done :=
  unfold gesture_ok;
  cbn [imageRef startPt currentPt set_imageRef set_canvasRef set_containerRef
       set_zoom set_pan set_spaceDown set_isPanning set_panStartRef set_boxes
       set_isDrawing set_startPt set_currentPt set_imageScroll opt_pt_ok];
  (split; [|split]); assumption.

Lemma gesture_ok_step Math_exp img env ev s :
  in_session ev -> gesture_ok img s -> gesture_ok img (step Math_exp env ev s).
Proof.
  intros Hev HG. pose proof HG as (Gi & Gs & Gc).
  destruct ev; cbn [step]; try contradiction.
  - unfold onMouseDown. rewrite Gi.
    destruct (spaceDown s).
    + cbn [canvasRef set_isPanning].
      destruct (canvasRef s); gesture_done.
    + pose proof (eventToImageCoords_pt_ok env e s img Gi) as Hpt.
      gesture_done.
  - unfold onMouseMove. destruct (isPanning s).
    + destruct (canvasRef s); [|exact HG]. gesture_done.
    + destruct (isDrawing s); cbn [negb]; [|exact HG].
      pose proof (eventToImageCoords_pt_ok env e s img Gi) as Hpt.
      gesture_done.
  - apply gesture_ok_endInteractions, HG.
  - apply gesture_ok_endInteractions, HG.
  - apply (gesture_ok_untouched img s); [apply store_untouched_wheelHandler | exact HG].
  - unfold onKeyDown. destruct (code =? "Space")%string; [|exact HG].
    gesture_done.
  - unfold onKeyUp. destruct (code =? "Space")%string; [|exact HG].
    gesture_done.
  - apply (gesture_ok_untouched img s); [apply store_untouched_resetView | exact HG].
  - gesture_done.
  - gesture_done.
  - apply (gesture_ok_untouched img (set_boxes [] s));
      [apply store_untouched_resetView | gesture_done].
  - apply (gesture_ok_untouched img (set_boxes [] s));
      [apply store_untouched_resetView | gesture_done].
  - destruct (containerRef s); [|exact HG]. gesture_done.
  - apply (gesture_ok_untouched img s); [apply store_untouched_fit | exact HG].
Qed.

Lemma boxes_step Math_exp img env ev s :
  in_session ev -> gesture_ok img s ->
  Forall (box_in_image img) (boxes s) ->
  Forall (box_in_image img) (boxes (step Math_exp env ev s)).
Proof.
  intros Hev HG HF.
  assert (Hend : forall uuid, Forall (box_in_image img) (boxes (endInteractions uuid s))).
  { intros uuid.
    destruct (endInteractions_box_in_image uuid img s HG) as [-> | (b & -> & Hb)];
      [exact HF|].
    apply Forall_app. split; [exact HF | constructor; [exact Hb | constructor]]. }
  assert (Hsame : forall s', boxes s' = boxes s -> Forall (box_in_image img) (boxes s')).
  { intros s' ->. exact HF. }
  assert (Hun : forall s', store_untouched s s' -> Forall (box_in_image img) (boxes s')).
  { intros s' (_ & _ & _ & H). apply Hsame, H. }
  destruct ev; cbn [step]; try contradiction.
  - apply Hsame. unfold onMouseDown. destruct (imageRef s); [|reflexivity].
    destruct (spaceDown s); [|reflexivity].
    cbn [canvasRef set_isPanning]. destruct (canvasRef s); reflexivity.
  - apply Hsame. unfold onMouseMove. destruct (isPanning s).
    + destruct (canvasRef s); reflexivity.
    + destruct (isDrawing s); reflexivity.
  - apply Hend.
  - apply Hend.
  - apply Hun, store_untouched_wheelHandler.
  - apply Hsame. unfold onKeyDown. destruct (code =? "Space")%string; reflexivity.
  - apply Hsame. unfold onKeyUp. destruct (code =? "Space")%string; reflexivity.
  - apply Hun, store_untouched_resetView.
  - unfold updateBoxName. cbn [boxes set_boxes].
    apply Forall_map. revert HF. apply Forall_impl. intros b Hb.
    destruct (Box.id b =? id)%string; exact Hb.
  - unfold deleteBox. cbn [boxes set_boxes].
    apply Forall_forall. intros b Hb. apply filter_In in Hb.
    rewrite Forall_forall in HF. apply HF, Hb.
  - constructor.
  - constructor.
  - apply Hsame. destruct (containerRef s); reflexivity.
  - apply Hun, store_untouched_fit.
Qed.

Lemma session_reach_ok Math_exp img s0 s :
  session_reach Math_exp s0 s -> gesture_ok img s0 ->
  gesture_ok img s /\
  (Forall (box_in_image img) (boxes s0) -> Forall (box_in_image img) (boxes s)).
Proof.
  intros Hr H0. induction Hr as [|env ev s Hev Hr IH].
  - split; [exact H0 | auto].
  - destruct IH as [HG HF]. split.
    + apply gesture_ok_step; assumption.
    + intros HB. apply boxes_step; auto.
Qed.

(** Within a session on one image [img] (no image is loaded or dropped and
    no annotations are restored from storage) that starts with no gesture in
    progress, [endInteractions] either leaves the annotations as they were or
    appends one annotation with integer coordinates, [0 <= x], [0 <= y],
    [x + w <= naturalWidth] and [y + h <= naturalHeight]; so annotations that
    all lie within the image keep doing so. *)
Theorem committed_box_in_image (Math_exp : Q -> Q) img s0 s :
  imageRef s0 = Some img -> startPt s0 = None -> currentPt s0 = None ->
  session_reach Math_exp s0 s ->
  (forall uuid,
      boxes (endInteractions uuid s) = boxes s \/
      exists b, boxes (endInteractions uuid s) = boxes s ++ [b] /\ box_in_image img b)
  /\
  (Forall (box_in_image img) (boxes s0) -> Forall (box_in_image img) (boxes s)).
Proof.
  intros Hi Hs Hc Hr.
  assert (H0 : gesture_ok img s0).
  { unfold gesture_ok. rewrite Hi, Hs, Hc. repeat split. }
  destruct (session_reach_ok Math_exp img s0 s Hr H0) as [HG HF].
  split; [|exact HF].
  intros uuid. apply endInteractions_box_in_image, HG.
Qed.

Lemma reachable_fold Math_exp env (evs : list Event) (s : State) :
  reachable Math_exp s ->
  reachable Math_exp (fold_left (fun s ev => step Math_exp env ev s) evs s).
Proof.
  revert s. induction evs as [|ev evs IH]; intros s Hs; cbn [fold_left].
  - exact Hs.
  - apply IH. apply reachable_step. exact Hs.
Qed.

(** C10: an annotation committed through the gesture lifecycle can lie outside
    the image.  Neither [reader.onload] nor the image effect ends a gesture in
    progress, so when the image is replaced between mouse down and mouse up
    the start point is still the one clamped into the old image: with the
    mouse down on (700, 500) of the 800 x 600 image and, after the 400 x 300
    image is loaded, the mouse up on (300, 200), [endInteractions] commits
    [{ x: 300, y: 200, w: 400, h: 300 }], whose right edge 700 and bottom
    edge 500 lie outside the 400 x 300 image. *)
Lemma stale_start_commits_outside_image :
  reachable demo_exp replaced_state /\
  imageRef replaced_state = Some small_image /\
  startPt replaced_state = Some (Pt.mk (Fin 700) (Fin 500)) /\
  currentPt replaced_state = Some (Pt.mk (Fin 300) (Fin 200)) /\
  boxes (onMouseUp "u1" replaced_state) = [stale_box] /\
  (Box.x stale_box + Box.w stale_box >? of_N (naturalWidth small_image)) = true /\
  (Box.y stale_box + Box.h stale_box >? of_N (naturalHeight small_image)) = true /\
  ~ box_in_image small_image stale_box.
Proof.
  split.
  { apply reachable_fold. apply reachable_step, reachable_initial. }
  split; [vm_compute; reflexivity|].
  split; [vm_compute; reflexivity|].
  split; [vm_compute; reflexivity|].
  split; [vm_compute; reflexivity|].
  split; [vm_compute; reflexivity|].
  split; [vm_compute; reflexivity|].
  intros (kx & ky & kw & kh & Hx & _ & Hw & _ & _ & _ & Hr & _).
  cbn in Hx, Hw, Hr.
  change 300%Q with (inject_Z 300) in Hx. change 400%Q with (inject_Z 400) in Hw.
  apply (proj1 (inject_Z_injective _ _)) in Hx.
  apply (proj1 (inject_Z_injective _ _)) in Hw. lia.
Qed.

(** ** Zoom anchor *)

Lemma round_half_up_comp (a b : Q) : (a == b)%Q -> round_half_up a = round_half_up b.
Proof. intros H. unfold round_half_up. rewrite H. reflexivity. Qed.




(** * The properties on concrete runs *)

(** The 800 x 600 image in a container 400 wide after padding is fitted to a
    400 x 300 canvas at zoom 1 with the pan at the origin. *)
Example fit_800x600 :
  canvasRef demo_loaded = Some (mkCanvas 400 300 (Some (Fin 400)) (Some (Fin 300))) /\
  zoomRef demo_loaded = Fin 1 /\
  Pt.x (panRef demo_loaded) =n= Fin 0 /\ Pt.y (panRef demo_loaded) =n= Fin 0.
Proof. repeat split; vm_compute; reflexivity. Qed.

(** A drag of 3 x 3 natural pixels commits nothing. *)
Example small_drag_discarded :
  boxes (onMouseUp "u2"
           (onMouseMove demo_env (mkMouseEvent (103 # 2) (103 # 2))
              (onMouseDown demo_env (mkMouseEvent 50 50) demo_loaded))) = [].
Proof. vm_compute. reflexivity. Qed.

Lemma pan_always_in_bounds_witness :
  reachable demo_exp demo_zoomed /\
  pan_in_bounds demo_zoomed /\ pan demo_zoomed = panRef demo_zoomed /\
  within minZ (zoomRef demo_zoomed) maxZ.
Proof.
  assert (H : reachable demo_exp demo_zoomed).
  { do 2 apply reachable_step. apply reachable_initial. }
  split; [exact H|].
  exact (proj1 (pan_always_in_bounds demo_exp) demo_zoomed H).
Defined.

Lemma getPanBounds_per_axis_witness :
  canvasRef demo_zoomed = Some (mkCanvas 400 300 (Some (Fin 400)) (Some (Fin 300))) /\
  minX (getPanBounds demo_zoomed (Fin 2)) =n= Fin (-400) /\
  maxX (getPanBounds demo_zoomed (Fin 2)) =n= Fin 0 /\
  minY (getPanBounds demo_zoomed (Fin (1 # 2))) =n= Fin 75 /\
  maxY (getPanBounds demo_zoomed (Fin (1 # 2))) =n= Fin 75.
Proof.
  split; [reflexivity|].
  pose proof (getPanBounds_per_axis demo_zoomed _ (Fin 2) eq_refl) as [Hx _].
  pose proof (getPanBounds_per_axis demo_zoomed _ (Fin (1 # 2)) eq_refl) as [_ Hy].
  cbv zeta in Hx, Hy. cbn [width height] in Hx, Hy.
  change (Fin 2 * of_Z 400 <=? of_Z 400) with false in Hx.
  change (Fin (1 # 2) * of_Z 300 <=? of_Z 300) with true in Hy.
  destruct Hx as (Hx1 & Hx2 & _). destruct Hy as (Hy1 & Hy2).
  rewrite Hx1, Hx2, Hy1, Hy2.
  repeat split; vm_compute; reflexivity.
Defined.

Lemma zoomAt_clamps_witness :
  zoomRef demo_loaded = Fin 1 /\
  zoomRef (zoomAt (Fin 200) (Fin 150) (Fin 1000000000) demo_loaded) =n= Fin 8 /\
  zoomRef (zoomAt (Fin 200) (Fin 150) (Fin (1 # 1000000000)) demo_loaded)
    =n= Fin (1 # 5).
Proof.
  split; [reflexivity|]. split.
  - apply (proj1 (proj2 (proj2
             (zoomAt_clamps (Fin 200) (Fin 150) (Fin 1000000000) demo_loaded)))
             1%Q 1000000000%Q eq_refl eq_refl).
    vm_compute. discriminate.
  - apply (proj2 (proj2 (proj2 (proj2
             (zoomAt_clamps (Fin 200) (Fin 150) (Fin (1 # 1000000000)) demo_loaded))))
             1%Q (1 # 1000000000)%Q eq_refl eq_refl).
    vm_compute. discriminate.
Defined.

Lemma eventToImageCoords_in_range_witness :
  reachable demo_exp demo_zoomed /\
  canvasRef demo_zoomed = Some (mkCanvas 400 300 (Some (Fin 400)) (Some (Fin 300))) /\
  imageRef demo_zoomed = Some demo_image /\
  exists kx ky,
    eventToImageCoords demo_env (mkMouseEvent 50 450) demo_zoomed
      = Pt.mk (of_Z kx) (of_Z ky) /\
    (0 <= kx <= 800)%Z /\ (0 <= ky <= 600)%Z.
Proof.
  assert (H : reachable demo_exp demo_zoomed).
  { do 2 apply reachable_step. apply reachable_initial. }
  split; [exact H|]. split; [reflexivity|]. split; [reflexivity|].
  destruct (eventToImageCoords_in_range demo_exp demo_env (mkMouseEvent 50 450)
              demo_zoomed _ _ H eq_refl eq_refl)
    as (z & px & py & _ & _ & _ & Hx & Hy).
  destruct Hx as (kx & Ex & Rx & _); [cbn; discriminate|].
  destruct Hy as (ky & Ey & Ry & _); [cbn; discriminate|].
  exists kx, ky.
  destruct (eventToImageCoords demo_env (mkMouseEvent 50 450) demo_zoomed) as [a b].
  cbn [Pt.x Pt.y] in Ex, Ey. rewrite Ex, Ey.
  split; [reflexivity|]. split; [exact Rx | exact Ry].
Defined.


Lemma rename_remove_by_id_witness :
  let s := set_boxes [demo_box "a" "first"; demo_box "b" "second"] demo_loaded in
  ~ In "c"%string (box_ids (boxes s)) /\
  updateBoxName "c" "third" s = s /\ deleteBox "c" s = s /\
  boxes (updateBoxName "b" "third" s) = [demo_box "a" "first"; demo_box "b" "third"] /\
  boxes (deleteBox "a" s) = [demo_box "b" "second"].
Proof.
  intros s.
  assert (Hn : ~ In "c"%string (box_ids (boxes s))).
  { cbn. intros [H | [H | []]]; discriminate H. }
  assert (Hd : NoDup (box_ids (boxes s))).
  { cbn. repeat constructor; cbn; intuition discriminate. }
  split; [exact Hn|].
  destruct (proj1 (rename_remove_by_id s "c" "third") Hn) as [H1 H2].
  split; [exact H1|]. split; [exact H2|].
  split.
  - rewrite (proj1 (proj2 (rename_remove_by_id s "b" "third")
                      [demo_box "a" "first"] (demo_box "b" "second") []
                      eq_refl eq_refl Hd)).
    reflexivity.
  - rewrite (proj2 (proj2 (rename_remove_by_id s "a" "x")
                      [] (demo_box "a" "first") [demo_box "b" "second"]
                      eq_refl eq_refl Hd)).
    reflexivity.
Defined.

Lemma fitCanvasToContainer_idempotent_witness :
  fitCanvasToContainer demo_env demo_loaded = demo_loaded /\
  fitCanvasToContainer demo_env (fitCanvasToContainer demo_env demo_initial)
    = fitCanvasToContainer demo_env demo_initial.
Proof.
  split.
  - apply (proj2 (fitCanvasToContainer_idempotent demo_env demo_loaded)
             (mkCanvas 400 300 (Some (Fin 400)) (Some (Fin 300)))
             (mkContainer 432 600 (Fin 0) (Fin 0)) demo_image);
      reflexivity.
  - exact (proj1 (fitCanvasToContainer_idempotent demo_env demo_initial)).
Defined.


Lemma eventToImageCoords_missing_witness :
  imageRef demo_initial = None /\
  eventToImageCoords demo_env (mkMouseEvent 50 50) demo_initial = Pt.mk (Fin 0) (Fin 0).
Proof.
  split; [reflexivity|].
  apply eventToImageCoords_missing. right. reflexivity.
Defined.

Lemma committed_box_in_image_witness :
  imageRef demo_loaded = Some demo_image /\
  session_reach demo_exp demo_loaded demo_dragged /\
  boxes (endInteractions "u1" demo_dragged) = boxes demo_dragged ++ [demo_box "u1" ""] /\
  box_in_image demo_image (demo_box "u1" "").
Proof.
  assert (Hr : session_reach demo_exp demo_loaded demo_dragged).
  { do 2 (apply session_step; [exact I|]). apply session_start. }
  split; [reflexivity|]. split; [exact Hr|]. split; [reflexivity|].
  destruct (proj1 (committed_box_in_image demo_exp demo_image demo_loaded demo_dragged
                     eq_refl eq_refl eq_refl Hr) "u1"%string)
    as [H | (b & H & Hb)].
  - apply (f_equal (@List.length Box.t)) in H. cbn in H. discriminate H.
  - change (boxes (endInteractions "u1" demo_dragged)) with ([] ++ [demo_box "u1" ""]) in H.
    change (boxes demo_dragged) with (@nil Box.t) in H.
    apply app_inj_tail in H. destruct H as [_ <-]. exact Hb.
Defined.

(** * Further properties of the viewport *)

Lemma clamp_fix (m M v : Q) :
  (m <= M)%Q ->
  ((m <= v <= M)%Q <-> Math_min (Fin M) (Math_max (Fin m) (Fin v)) =n= Fin v).
Proof.
  intros H. cbn. qcases; cbn; qcases; split; intros; lra.
Qed.

Lemma clamp_equiv (m M v v' : Q) :
  (v == v')%Q ->
  Math_min (Fin M) (Math_max (Fin m) (Fin v))
    =n= Math_min (Fin M) (Math_max (Fin m) (Fin v')).
Proof.
  intros H. cbn. qcases; cbn; qcases; cbn; lra.
Qed.

Lemma within_Fin (a v b : Q) : within (Fin a) (Fin v) (Fin b) <-> (a <= v <= b)%Q.
Proof.
  unfold within. cbn. rewrite !Qle_bool_iff. reflexivity.
Qed.

(** [resetView] sets the zoom to 1 and, whatever the canvas, the pan to the
    origin: at zoom 1 the content is as large as the canvas, so the centring
    offset is 0.  It touches nothing else, and doing it twice is doing it
    once. *)
Theorem resetView_origin (s : State) :
  zoomRef (resetView s) = Fin 1 /\ zoom (resetView s) = Fin 1 /\
  Pt.x (panRef (resetView s)) =n= Fin 0 /\ Pt.y (panRef (resetView s)) =n= Fin 0 /\
  pan (resetView s) = panRef (resetView s) /\
  canvasRef (resetView s) = canvasRef s /\ store_untouched s (resetView s) /\
  resetView (resetView s) = resetView s.
Proof.
  split; [reflexivity|]. split; [reflexivity|].
  assert (H : forall t, Pt.x (clampPan t (Fin 1) (Pt.mk (Fin 0) (Fin 0))) =n= Fin 0 /\
                        Pt.y (clampPan t (Fin 1) (Pt.mk (Fin 0) (Fin 0))) =n= Fin 0).
  { intros t. unfold clampPan, getPanBounds. destruct (canvasRef t) as [c|].
    - unfold of_Z. cbn.
      generalize (inject_Z (width c)) (inject_Z (height c)). intros cw ch.
      qcases; cbn; qcases; cbn; split; qlra.
    - cbn. split; reflexivity. }
  split; [apply H|]. split; [apply H|].
  split; [reflexivity|]. split; [reflexivity|]. split; [repeat split|].
  unfold resetView. cbn [set_zoom set_pan canvasRef zoom pan panRef zoomRef
    imageRef containerRef spaceDown isPanning panStartRef boxes isDrawing
    startPt currentPt imageScroll imageScrollRef].
  match goal with
  | |- context [clampPan ?a ?z ?p] =>
      match goal with
      | |- context [clampPan ?b z p] =>
          lazymatch a with
          | b => fail
          | _ => rewrite (clampPan_canvas a b z p eq_refl)
          end
      end
  end.
  reflexivity.
Qed.

(** For a finite zoom and a finite point, whatever the canvas, [clampPan]
    returns a point within the pan bounds, and it returns the point it was
    given exactly when that point is within the bounds. *)
Theorem clampPan_fixes_in_bounds (s : State) (q a b : Q) :
  let p := Pt.mk (Fin a) (Fin b) in
  let B := getPanBounds s (Fin q) in
  let r := clampPan s (Fin q) p in
  (within (minX B) (Pt.x r) (maxX B) /\ within (minY B) (Pt.y r) (maxY B)) /\
  ((within (minX B) (Pt.x p) (maxX B) /\ within (minY B) (Pt.y p) (maxY B)) <->
   (Pt.x r =n= Pt.x p /\ Pt.y r =n= Pt.y p)).
Proof.
  intros p B r. subst p B r. unfold clampPan.
  destruct (getPanBounds_finite s q) as (m & M & m' & M' & -> & Hx & Hy).
  cbn [minX maxX minY maxY Pt.x Pt.y].
  destruct (clamp_within m M a Hx) as (rx & Ex & Hrx).
  destruct (clamp_within m' M' b Hy) as (ry & Ey & Hry).
  split.
  - rewrite Ex, Ey, !within_Fin. split; assumption.
  - rewrite !within_Fin, (clamp_fix m M a Hx), (clamp_fix m' M' b Hy). reflexivity.
Qed.

Lemma inject_Z_nonneg (k : Z) : (0 <= k)%Z -> (0 <= inject_Z k)%Q.
Proof. intros H. rewrite Zle_Qle in H. exact H. Qed.

(** In a reachable state with a canvas, at zoom 1 or more the scaled image
    covers the whole canvas on both axes (its left and top edges are at or
    before 0 and its right and bottom edges at or after the canvas size), and
    at zoom 1 or less the image is centred in the canvas. *)
Theorem image_covers_viewport (Math_exp : Q -> Q) (s : State) (canvas : Canvas) :
  reachable Math_exp s -> canvasRef s = Some canvas ->
  (0 <= width canvas)%Z -> (0 <= height canvas)%Z ->
  exists z px py,
    zoomRef s = Fin z /\ panRef s = Pt.mk (Fin px) (Fin py) /\
    let cw := inject_Z (width canvas) in
    let ch := inject_Z (height canvas) in
    ((1 <= z)%Q ->
     (px <= 0 /\ cw <= px + z * cw /\ py <= 0 /\ ch <= py + z * ch)%Q) /\
    ((z <= 1)%Q ->
     (px == (cw - z * cw) / 2 /\ py == (ch - z * ch) / 2)%Q).
Proof.
  intros Hr Hc Hw Hh.
  destruct (reachable_Inv Math_exp s Hr)
    as (((z & Hz & Hzr) & _) & Hb & _ & (px & py & Hp)).
  exists z, px, py. split; [exact Hz|]. split; [exact Hp|].
  apply inject_Z_nonneg in Hw, Hh.
  unfold pan_in_bounds, getPanBounds in Hb. rewrite Hc, Hz, Hp in Hb.
  unfold of_Z in Hb. cbn [Pt.x Pt.y] in Hb.
  revert Hb Hw Hh.
  generalize (inject_Z (width canvas)) (inject_Z (height canvas)). intros cw ch.
  cbn.
  destruct (Qle_bool (z * cw) cw) eqn:Ew, (Qle_bool (z * ch) ch) eqn:Eh;
    cbn; qfacts;
    repeat match goal with
      | |- context [Qle_bool 0 ?d] => destruct (Qle_bool 0 d) eqn:?; cbn
      end;
    rewrite !within_Fin; qfacts; intros [Hx Hy] Hw Hh;
    (split; intros Hz1;
     try (assert (cw <= z * cw)%Q by nra);
     try (assert (ch <= z * ch)%Q by nra);
     try (assert (z * cw <= cw)%Q by nra);
     try (assert (z * ch <= ch)%Q by nra);
     unfold Qdiv in *; change (/ 2)%Q with (1 # 2)%Q in *;
     generalize dependent (z * cw)%Q; generalize dependent (z * ch)%Q;
     intros; repeat split; lra).
Qed.

(** [zoomAt] changes nothing at all when the clamped zoom is the old one:
    zooming in at zoom 8, zooming out at zoom 0.2, or zooming by the factor 1
    from any zoom of [0.2, 8]. *)
Theorem zoomAt_noop_at_limits (mx my : num) (f : Q) (s : State) (z : Q) :
  zoomRef s = Fin z ->
  (z == 8 /\ 1 <= f)%Q \/ (z == 1 # 5 /\ f <= 1)%Q \/ (1 # 5 <= z <= 8 /\ f == 1)%Q ->
  zoomAt mx my (Fin f) s = s.
Proof.
  intros Hz H. unfold zoomAt. rewrite Hz. unfold maxZ, minZ.
  cbn [nmul Math_min Math_max nle strict_eq].
  repeat (match goal with
          | |- context [Qle_bool ?a ?b] => destruct (Qle_bool a b) eqn:?
          end; cbn [Math_min Math_max nle strict_eq]);
    qfacts;
    match goal with
    | |- (if Qeq_bool ?c z then _ else _) = _ =>
        let E := fresh in
        assert (E : Qeq_bool c z = true)
          by (apply Qeq_bool_iff; destruct H as [H | [H | H]]; nra);
        rewrite E; reflexivity
    end.
Qed.

Lemma canvasX_dprQ (env : Env) (x : Q) :
  canvasX env x = Fin ((x - rect_left env) * dprQ env).
Proof. unfold canvasX. rewrite dpr_of_dprQ. reflexivity. Qed.

Lemma canvasY_dprQ (env : Env) (y : Q) :
  canvasY env y = Fin ((y - rect_top env) * dprQ env).
Proof. unfold canvasY. rewrite dpr_of_dprQ. reflexivity. Qed.

(** The pan of an invariant state is, per axis, within finite ordered
    bounds. *)
Lemma Inv_pan_bounds (s : State) :
  Inv s ->
  exists z px py m M m' M',
    zoomRef s = Fin z /\ panRef s = Pt.mk (Fin px) (Fin py) /\
    getPanBounds s (Fin z) = mkBounds (Fin m) (Fin M) (Fin m') (Fin M') /\
    (m <= px <= M)%Q /\ (m' <= py <= M')%Q.
Proof.
  intros (((z & Hz & _) & _) & Hb & _ & (px & py & Hp)).
  destruct (getPanBounds_finite s z) as (m & M & m' & M' & HB & _ & _).
  exists z, px, py, m, M, m', M'.
  unfold pan_in_bounds in Hb. rewrite Hz, HB, Hp in Hb.
  cbn [minX maxX minY maxY Pt.x Pt.y] in Hb. rewrite !within_Fin in Hb.
  repeat split; try assumption; apply Hb.
Qed.

Lemma clamp_monotone (m M v v' : Q) :
  (v <= v')%Q ->
  (Math_min (Fin M) (Math_max (Fin m) (Fin v))
   <=? Math_min (Fin M) (Math_max (Fin m) (Fin v'))) = true.
Proof.
  intros H. cbn. qcases; cbn; qcases; cbn;
    first [reflexivity | apply Qle_bool_iff; lra | exfalso; lra].
Qed.

(** Panning by drag.  With Space held, a mouse down starts the panning,
    records the canvas point of the pointer minus the pan, and leaves the pan
    where it is.  Every mouse move after it writes as pan the clamp of the
    canvas point of the pointer minus the recorded point, and leaves the zoom,
    the image, the gesture and the annotations alone.  So the pan during a
    drag depends on the latest pointer position only, not on the moves before
    it; and with a positive device pixel ratio it is monotone: a pointer
    further right never gives a smaller pan x, a pointer further down never a
    smaller pan y. *)
Theorem drag_follows_pointer (Math_exp : Q -> Q) env0 (e0 : MouseEvent)
  (s : State) img canvas :
  reachable Math_exp s ->
  imageRef s = Some img -> canvasRef s = Some canvas -> spaceDown s = true ->
  let s1 := onMouseDown env0 e0 s in
  isPanning s1 = true /\ panRef s1 = panRef s /\
  panStartRef s1 = Pt.mk (canvasX env0 (clientX e0) - Pt.x (panRef s))
                         (canvasY env0 (clientY e0) - Pt.y (panRef s)) /\
  (forall env e1,
      let s2 := onMouseMove env e1 s1 in
      panRef s2 = clampPan s (zoomRef s)
                    (Pt.mk (canvasX env (clientX e1) - Pt.x (panStartRef s1))
                           (canvasY env (clientY e1) - Pt.y (panStartRef s1))) /\
      pan s2 = panRef s2 /\ isPanning s2 = true /\
      zoomRef s2 = zoomRef s /\ store_untouched s s2) /\
  (forall env env' e1 e2,
      panRef (onMouseMove env' e2 (onMouseMove env e1 s1))
      = panRef (onMouseMove env' e2 s1)) /\
  (forall env e1 e2,
      (0 < devicePixelRatio env)%Q ->
      ((clientX e1 <= clientX e2)%Q ->
       (Pt.x (panRef (onMouseMove env e1 s1))
        <=? Pt.x (panRef (onMouseMove env e2 s1))) = true) /\
      ((clientY e1 <= clientY e2)%Q ->
       (Pt.y (panRef (onMouseMove env e1 s1))
        <=? Pt.y (panRef (onMouseMove env e2 s1))) = true)).
Proof.
  intros Hr Hi Hc Hsp s1.
  destruct (Inv_pan_bounds s (reachable_Inv Math_exp s Hr))
    as (z & px & py & m & M & m' & M' & Hz & Hp & HB & Hx & Hy).
  assert (E1 : s1 = set_panStartRef
                 (Pt.mk (canvasX env0 (clientX e0) - Pt.x (panRef s))
                        (canvasY env0 (clientY e0) - Pt.y (panRef s)))
                 (set_isPanning true s)).
  { unfold s1, onMouseDown. rewrite Hi, Hsp. cbn [canvasRef set_isPanning].
    rewrite Hc. reflexivity. }
  assert (E2 : forall env e1 t,
             isPanning t = true -> canvasRef t = Some canvas ->
             onMouseMove env e1 t
             = set_pan
                 (clampPan t (zoomRef t)
                    (Pt.mk (canvasX env (clientX e1) - Pt.x (panStartRef t))
                           (canvasY env (clientY e1) - Pt.y (panStartRef t)))) t).
  { intros env e1 t Ht Hct. unfold onMouseMove. rewrite Ht, Hct. reflexivity. }
  assert (P1 : isPanning s1 = true) by (rewrite E1; reflexivity).
  assert (C1 : canvasRef s1 = Some canvas) by (rewrite E1; exact Hc).
  assert (Hmove : forall env e1,
             panRef (onMouseMove env e1 s1)
             = clampPan s (zoomRef s)
                 (Pt.mk (canvasX env (clientX e1) - Pt.x (panStartRef s1))
                        (canvasY env (clientY e1) - Pt.y (panStartRef s1)))).
  { intros env e1. rewrite (E2 env e1 s1 P1 C1). cbn [panRef set_pan].
    rewrite (clampPan_canvas s1 s _ _ (eq_trans C1 (eq_sym Hc))).
    rewrite E1. reflexivity. }
  split; [exact P1|]. split; [rewrite E1; reflexivity|].
  split; [rewrite E1; reflexivity|].
  split; [|split].
  - intros env e1 s2. split; [apply Hmove|].
    unfold s2. rewrite (E2 env e1 s1 P1 C1). rewrite E1.
    repeat split.
  - intros env env' e1 e2.
    rewrite Hmove.
    set (t := onMouseMove env e1 s1).
    assert (Et : t = set_pan (panRef t) s1).
    { unfold t. rewrite (E2 env e1 s1 P1 C1). reflexivity. }
    rewrite (E2 env' e2 t); [|rewrite Et; exact P1|rewrite Et; exact C1].
    cbn [panRef set_pan].
    rewrite (clampPan_canvas t s _ _); [|rewrite Et; exact (eq_trans C1 (eq_sym Hc))].
    rewrite Et. cbn [zoomRef panStartRef set_pan]. rewrite E1. reflexivity.
  - intros env e1 e2 Hd.
    assert (Ed : dprQ env = devicePixelRatio env).
    { unfold dprQ. destruct (Qeq_bool (devicePixelRatio env) 0) eqn:E; [|reflexivity].
      apply Qeq_bool_iff in E. lra. }
    rewrite !Hmove, Hz. unfold clampPan. rewrite HB.
    cbn [minX maxX minY maxY Pt.x Pt.y].
    rewrite E1. cbn [panStartRef set_panStartRef Pt.x Pt.y]. rewrite Hp.
    cbn [Pt.x Pt.y]. rewrite !canvasX_dprQ, !canvasY_dprQ, Ed.
    cbn [nsub nadd nopp].
    split; intros Hle; apply clamp_monotone; nra.
Qed.

(** Panning by wheel with Space held: the pan component whose wheel delta is
    zero keeps its value, so with Shift (the vertical delta pans
    horizontally) the vertical pan never changes; the zoom and the
    annotations are as before. *)
Theorem wheel_pan_keeps_other_axis (Math_exp : Q -> Q) env (e : WheelEvent)
  (s : State) canvas :
  reachable Math_exp s -> canvasRef s = Some canvas ->
  ctrlKey e || metaKey e = false -> spaceDown s = true ->
  let s' := wheelHandler Math_exp env e s in
  (shiftKey e = true -> Pt.y (panRef s') =n= Pt.y (panRef s)) /\
  (shiftKey e = true -> (deltaY e == 0)%Q -> Pt.x (panRef s') =n= Pt.x (panRef s)) /\
  (shiftKey e = false -> (deltaY e == 0)%Q -> Pt.y (panRef s') =n= Pt.y (panRef s)) /\
  (shiftKey e = false -> (deltaX e == 0)%Q -> Pt.x (panRef s') =n= Pt.x (panRef s)) /\
  zoomRef s' = zoomRef s /\ store_untouched s s'.
Proof.
  intros Hr Hc Hk Hsp s'.
  destruct (Inv_pan_bounds s (reachable_Inv Math_exp s Hr))
    as (z & px & py & m & M & m' & M' & Hz & Hp & HB & Hx & Hy).
  assert (Hmm : (m <= M)%Q) by lra. assert (Hmm' : (m' <= M')%Q) by lra.
  assert (Hs' : s' = set_pan
            (clampPan s (Fin z)
               (Pt.mk (Fin px - (if shiftKey e then Fin (deltaY e) else Fin (deltaX e))
                               * (if (deltaMode e =? 1)%Z then Fin 16 else Fin 1))
                      (Fin py - (if shiftKey e then Fin 0 else Fin (deltaY e))
                               * (if (deltaMode e =? 1)%Z then Fin 16 else Fin 1)))) s).
  { unfold s', wheelHandler. rewrite Hc, Hk, Hsp, Hz, Hp. reflexivity. }
  rewrite Hs'. cbn [panRef set_pan zoomRef]. rewrite Hp. unfold clampPan. rewrite HB.
  cbn [minX maxX minY maxY Pt.x Pt.y].
  repeat split; try (intros Hsh); try (intros Hd); try rewrite Hsh;
    destruct (deltaMode e =? 1)%Z; cbn [nsub nadd nopp nmul];
    (eapply num_equiv_trans;
     [apply clamp_equiv
     |first [apply (clamp_fix m M px Hmm), Hx | apply (clamp_fix m' M' py Hmm'), Hy]]);
    try rewrite Hd; ring.
Qed.

(** The wheel handler never touches the image, the gesture or the
    annotations; without Ctrl or Meta it never changes the zoom; and with
    neither Ctrl, Meta nor Space it leaves pan, zoom and canvas alone. *)
Theorem wheel_leaves_store (Math_exp : Q -> Q) env (e : WheelEvent) (s : State) :
  let s' := wheelHandler Math_exp env e s in
  store_untouched s s' /\ canvasRef s' = canvasRef s /\
  (ctrlKey e || metaKey e = false -> zoomRef s' = zoomRef s /\ zoom s' = zoom s) /\
  (ctrlKey e || metaKey e = false -> spaceDown s = false -> view_untouched s s').
Proof.
  intros s'. subst s'.
  split; [apply store_untouched_wheelHandler|].
  unfold wheelHandler, zoomAt. destruct (canvasRef s) as [c|] eqn:Hc;
    [destruct (ctrlKey e || metaKey e) eqn:Hk;
     [match goal with |- context [if ?t then s else _] => destruct t end
     |destruct (spaceDown s) eqn:Hsp; [|destruct (containerRef s)]]|];
    cbn [canvasRef set_pan set_zoom set_containerRef zoomRef zoom];
    (split; [exact Hc|]);
    (split; [intros; try discriminate; split; reflexivity|]);
    intros; try discriminate; repeat split; cbn; exact Hc.
Qed.

Lemma Z_of_N_nonzero (n : N) : n <> 0%N -> Z.of_N n <> 0%Z.
Proof. intros H E. apply H. apply N2Z.inj. exact E. Qed.

Lemma inject_N_nonzero (n : N) : n <> 0%N -> ~ (inject_Z (Z.of_N n) == 0)%Q.
Proof.
  intros H E. apply (Z_of_N_nonzero n H).
  apply (proj1 (inject_Z_injective (Z.of_N n) 0)). exact E.
Qed.

Lemma Qtruncate_inject_Z (k : Z) : Qtruncate (inject_Z k) = k.
Proof. unfold Qtruncate. cbn. apply Z.quot_1_r. Qed.

Lemma strict_eq_of_Z (a b : Z) : (of_Z a === of_Z b) = true -> a = b.
Proof.
  unfold of_Z. cbn. intros H. apply Qeq_bool_iff in H.
  apply inject_Z_injective. exact H.
Qed.

Lemma round_half_up_bounds (v : Q) :
  (inject_Z (round_half_up v) <= v + (1 # 2) /\ v - (1 # 2) < inject_Z (round_half_up v))%Q.
Proof.
  unfold round_half_up.
  pose proof (Qfloor_le (v + (1 # 2))) as H1.
  pose proof (Qlt_floor (v + (1 # 2))) as H2.
  rewrite inject_Z_plus in H2. change (inject_Z 1) with 1%Q in H2.
  split; lra.
Qed.

(** A rounded quotient is within a half of the quotient. *)
Lemma round_quotient_bound (a b : Z) :
  (0 < b)%Z ->
  (2 * Z.abs (round_half_up (inject_Z a / inject_Z b) * b - a) <= b)%Z.
Proof.
  intros Hb.
  assert (HB : (0 < inject_Z b)%Q)
    by (change 0%Q with (inject_Z 0); rewrite <- Zlt_Qlt; exact Hb).
  destruct (round_half_up_bounds (inject_Z a / inject_Z b)) as [B1 B2].
  set (h := round_half_up (inject_Z a / inject_Z b)) in *.
  assert (U : (inject_Z h * inject_Z b <= inject_Z a + inject_Z b * (1 # 2))%Q).
  { assert (E : (inject_Z a + inject_Z b * (1 # 2)
                 == (inject_Z a / inject_Z b + (1 # 2)) * inject_Z b)%Q)
      by (field; lra).
    rewrite E. apply Qmult_le_compat_r; lra. }
  assert (L : (inject_Z a - inject_Z b * (1 # 2) < inject_Z h * inject_Z b)%Q).
  { assert (E : (inject_Z a - inject_Z b * (1 # 2)
                 == (inject_Z a / inject_Z b - (1 # 2)) * inject_Z b)%Q)
      by (field; lra).
    rewrite E. apply Qmult_lt_compat_r; lra. }
  assert (U' : (2 * (h * b) <= 2 * a + b)%Z).
  { rewrite Zle_Qle. rewrite !inject_Z_plus, !inject_Z_mult.
    change (inject_Z 2) with 2%Q. lra. }
  assert (L' : (2 * a - b < 2 * (h * b))%Z).
  { rewrite Zlt_Qlt. unfold Z.sub. rewrite !inject_Z_plus, !inject_Z_mult, !inject_Z_opp.
    change (inject_Z 2) with 2%Q. lra. }
  lia.
Qed.

Lemma canvas_dim_in_range (d k : Z) :
  (0 <= k <= 2147483647)%Z -> canvas_dim d (of_Z k) = k.
Proof.
  intros H. unfold of_Z, canvas_dim. rewrite Qtruncate_inject_Z.
  change (2 ^ 32)%Z with 4294967296%Z. cbv zeta.
  rewrite Z.mod_small by lia.
  destruct (Z.leb_spec k 2147483647); [reflexivity | lia].
Qed.

Lemma canvas_dim_negative (d k : Z) :
  (-2147483648 <= k < 0)%Z -> canvas_dim d (of_Z k) = d.
Proof.
  intros H. unfold of_Z, canvas_dim. rewrite Qtruncate_inject_Z.
  change (2 ^ 32)%Z with 4294967296%Z. cbv zeta.
  rewrite <- (Z_mod_plus_full k 1 4294967296).
  rewrite Z.mod_small by lia.
  destruct (Z.leb_spec (k + 1 * 4294967296) 2147483647); [lia | reflexivity].
Qed.

Lemma set_px_of_Z (old : option num) (k : Z) :
  set_px old (of_Z k) = if (0 <=? k)%Z then Some (of_Z k) else old.
Proof.
  unfold set_px, of_Z. change 0%Q with (inject_Z 0). rewrite Qle_bool_inject_Z.
  reflexivity.
Qed.

(** What [fitCanvasToContainer] leaves when canvas, container and image are
    there, for an image with non-zero natural sizes.  It computes the css
    width [w], the smaller of the container width minus the 32 pixels of
    padding and the natural width; a css height [h] within a half of [w]
    divided by the aspect ratio; and pixel sizes [pw] and [ph] that are [w]
    and [h] times the device pixel ratio, rounded down or up.  Afterwards the
    style of the canvas holds [w] and [h] when they are not negative, and is
    the old one on an axis where the value is negative; the pixel attributes
    hold [pw] and [ph] when they are in [[0, 2147483647]], and their defaults
    300 and 150 when they are negative (a container narrower than its
    padding).  The zoom, the container, the image, the gesture and the
    annotations are as before. *)
Theorem fitCanvasToContainer_sizes env (s : State) canvas container img :
  canvasRef s = Some canvas -> containerRef s = Some container ->
  imageRef s = Some img ->
  naturalWidth img <> 0%N -> naturalHeight img <> 0%N ->
  let nw := Z.of_N (naturalWidth img) in
  let nh := Z.of_N (naturalHeight img) in
  let w := Z.min (clientWidth container - 32) nw in
  exists (c' : Canvas) (h pw ph : Z),
    canvasRef (fitCanvasToContainer env s) = Some c' /\
    (2 * Z.abs (h * nw - w * nh) <= nw)%Z /\
    (Qfloor (inject_Z w * dprQ env) <= pw <= Qceiling (inject_Z w * dprQ env))%Z /\
    (Qfloor (inject_Z h * dprQ env) <= ph <= Qceiling (inject_Z h * dprQ env))%Z /\
    ((0 <= w)%Z -> parseInt_px (style_width c') =n= of_Z w) /\
    ((w < 0)%Z -> style_width c' = style_width canvas) /\
    ((0 <= h)%Z -> parseInt_px (style_height c') =n= of_Z h) /\
    ((h < 0)%Z -> style_height c' = style_height canvas) /\
    ((0 <= pw <= 2147483647)%Z -> width c' = pw) /\
    ((0 <= ph <= 2147483647)%Z -> height c' = ph) /\
    ((-2147483648 <= pw < 0)%Z -> (0 <= width canvas)%Z -> width c' = 300%Z) /\
    ((-2147483648 <= ph < 0)%Z -> (0 <= height canvas)%Z -> height c' = 150%Z) /\
    zoomRef (fitCanvasToContainer env s) = zoomRef s /\
    containerRef (fitCanvasToContainer env s) = containerRef s /\
    store_untouched s (fitCanvasToContainer env s).
Proof.
  intros Hc Hk Hi Hnw Hnh nw nh w.
  assert (Hframe : zoomRef (fitCanvasToContainer env s) = zoomRef s /\
                   containerRef (fitCanvasToContainer env s) = containerRef s /\
                   store_untouched s (fitCanvasToContainer env s)).
  { split; [|split; [|apply store_untouched_fit]];
      unfold fitCanvasToContainer; rewrite Hc, Hk, Hi; cbv zeta;
      match goal with |- context [if ?t then s else _] => destruct t end;
      try reflexivity; cbn; assumption. }
  pose proof (Z_of_N_nonzero _ Hnw) as Znw. pose proof (Z_of_N_nonzero _ Hnh) as Znh.
  fold nw in Znw. fold nh in Znh.
  assert (Pnw : (0 < nw)%Z) by (unfold nw in *; lia).
  assert (Qnw : ~ (inject_Z nw == 0)%Q) by (apply inject_N_nonzero, Hnw).
  assert (Qnh : ~ (inject_Z nh == 0)%Q) by (apply inject_N_nonzero, Hnh).
  set (h := round_half_up (inject_Z w / (inject_Z nw / inject_Z nh))).
  set (pw := round_half_up (inject_Z w * dprQ env)).
  set (ph := round_half_up (inject_Z h * dprQ env)).
  assert (Hh : Math_round (of_Z w / (of_Z nw / of_Z nh)) = of_Z h).
  { unfold of_Z. cbn [ndiv]. rewrite (inject_Z_nonzero nh Znh). cbn [ndiv].
    assert (E : Qeq_bool (inject_Z nw / inject_Z nh) 0 = false).
    { apply Qeq_bool_false. intro E. apply Qnw.
      rewrite <- (Qmult_div_r _ _ Qnh). rewrite E. ring. }
    rewrite E. reflexivity. }
  assert (Bh : (2 * Z.abs (h * nw - w * nh) <= nw)%Z).
  { assert (E : (inject_Z w / (inject_Z nw / inject_Z nh)
                 == inject_Z (w * nh) / inject_Z nw)%Q).
    { rewrite inject_Z_mult. field. split; assumption. }
    unfold h. rewrite (round_half_up_comp _ _ E).
    apply round_quotient_bound, Pnw. }
  assert (Hmain : exists c' : Canvas,
    canvasRef (fitCanvasToContainer env s) = Some c' /\
    ((0 <= w)%Z -> parseInt_px (style_width c') =n= of_Z w) /\
    ((w < 0)%Z -> style_width c' = style_width canvas) /\
    ((0 <= h)%Z -> parseInt_px (style_height c') =n= of_Z h) /\
    ((h < 0)%Z -> style_height c' = style_height canvas) /\
    ((0 <= pw <= 2147483647)%Z -> width c' = pw) /\
    ((0 <= ph <= 2147483647)%Z -> height c' = ph) /\
    ((-2147483648 <= pw < 0)%Z -> (0 <= width canvas)%Z -> width c' = 300%Z) /\
    ((-2147483648 <= ph < 0)%Z -> (0 <= height canvas)%Z -> height c' = 150%Z)).
  { clear Hframe.
    unfold fitCanvasToContainer. rewrite Hc, Hk, Hi. cbv zeta.
    unfold of_N. rewrite !Math_min_of_Z. fold nw nh w.
    rewrite dpr_of_dprQ, Hh.
    change (Math_round (of_Z w * Fin (dprQ env))) with (of_Z pw).
    change (Math_round (of_Z h * Fin (dprQ env))) with (of_Z ph).
    match goal with |- context [if ?t then s else _] => destruct t eqn:Ht end.
    - exists canvas. split; [exact Hc|].
      apply andb_true_iff in Ht. destruct Ht as [Ht H4].
      apply andb_true_iff in Ht. destruct Ht as [Ht H3].
      apply andb_true_iff in Ht. destruct Ht as [H1 H2].
      apply strict_eq_of_Z in H3. apply strict_eq_of_Z in H4.
      split; [intros _; apply strict_eq_equiv, H1|].
      split; [reflexivity|].
      split; [intros _; apply strict_eq_equiv, H2|].
      split; [reflexivity|].
      split; [intros _; exact H3|]. split; [intros _; exact H4|].
      split; intros; lia.
    - eexists. split; [reflexivity|].
      cbn [style_width style_height width height].
      rewrite !set_px_of_Z.
      split; [intros H; apply Z.leb_le in H; rewrite H; unfold of_Z;
              cbn [parseInt_px]; rewrite Qtruncate_inject_Z; apply num_equiv_refl|].
      split; [intros H; apply Z.leb_gt in H; rewrite H; reflexivity|].
      split; [intros H; apply Z.leb_le in H; rewrite H; unfold of_Z;
              cbn [parseInt_px]; rewrite Qtruncate_inject_Z; apply num_equiv_refl|].
      split; [intros H; apply Z.leb_gt in H; rewrite H; reflexivity|].
      split; [apply canvas_dim_in_range|].
      split; [apply canvas_dim_in_range|].
      split; intros H _; apply canvas_dim_negative, H. }
  destruct Hmain as (c' & H1 & H2).
  exists c', h, pw, ph. split; [exact H1|]. split; [exact Bh|].
  split; [apply round_half_up_floor_ceiling|].
  split; [apply round_half_up_floor_ceiling|].
  repeat (split; [apply H2|]).
  exact Hframe.
Qed.

Lemma round_half_up_mono (a b : Q) : (a <= b)%Q -> (round_half_up a <= round_half_up b)%Z.
Proof. intros H. unfold round_half_up. apply Qfloor_resp_le. lra. Qed.

(** The transform is monotone: in a reachable state, on a canvas of positive
    pixel size and with a positive device pixel ratio, a pointer further right
    maps to a natural x that is not smaller, and a pointer further down to a
    natural y that is not smaller. *)
Theorem eventToImageCoords_monotone (Math_exp : Q -> Q) env (e1 e2 : MouseEvent)
  (s : State) canvas img :
  reachable Math_exp s ->
  canvasRef s = Some canvas -> imageRef s = Some img ->
  (0 < width canvas)%Z -> (0 < height canvas)%Z ->
  (0 < devicePixelRatio env)%Q ->
  exists x1 y1 x2 y2 : Z,
    eventToImageCoords env e1 s = Pt.mk (of_Z x1) (of_Z y1) /\
    eventToImageCoords env e2 s = Pt.mk (of_Z x2) (of_Z y2) /\
    ((clientX e1 <= clientX e2)%Q -> (x1 <= x2)%Z) /\
    ((clientY e1 <= clientY e2)%Q -> (y1 <= y2)%Z).
Proof.
  intros Hr Hc Hi Hw Hh Hd.
  destruct (reachable_Inv Math_exp s Hr)
    as (((z & Hz & Hzr) & _) & _ & _ & (px & py & Hp)).
  assert (Hz0 : ~ (z == 0)%Q) by lra.
  assert (Hw0 : width canvas <> 0%Z) by lia.
  assert (Hh0 : height canvas <> 0%Z) by lia.
  do 4 eexists.
  split; [apply (eventToImageCoords_finite env e1 s canvas img z px py); assumption|].
  split; [apply (eventToImageCoords_finite env e2 s canvas img z px py); assumption|].
  assert (Hdq : (0 < dprQ env)%Q).
  { unfold dprQ. destruct (Qeq_bool (devicePixelRatio env) 0); lra. }
  assert (Hzi : (0 < / z)%Q) by (apply Qinv_lt_0_compat; lra).
  assert (Hmono : forall (n : N) (c : Z) (a b o p : Q),
            (0 < c)%Z -> (a <= b)%Q ->
            (((a - o) * dprQ env - p) / z * (inject_Z (Z.of_N n) / inject_Z c)
             <= ((b - o) * dprQ env - p) / z * (inject_Z (Z.of_N n) / inject_Z c))%Q).
  { intros n c a b o p Hcpos Hab.
    assert (Hn : (0 <= inject_Z (Z.of_N n))%Q) by (apply inject_Z_nonneg; lia).
    assert (Hci : (0 < / inject_Z c)%Q).
    { apply Qinv_lt_0_compat. change 0%Q with (inject_Z 0). rewrite <- Zlt_Qlt. exact Hcpos. }
    assert (Hs : (0 <= inject_Z (Z.of_N n) / inject_Z c)%Q).
    { unfold Qdiv. apply Qmult_le_0_compat; lra. }
    apply Qmult_le_compat_r; [|exact Hs].
    unfold Qdiv. apply Qmult_le_compat_r; [|lra].
    assert ((a - o) * dprQ env <= (b - o) * dprQ env)%Q
      by (apply Qmult_le_compat_r; lra).
    lra. }
  split; intros Hle.
  - apply Z.max_le_compat_l, Z.min_le_compat_l, round_half_up_mono, Hmono; assumption.
  - apply Z.max_le_compat_l, Z.min_le_compat_l, round_half_up_mono, Hmono; assumption.
Qed.

(** * Further properties of the gesture and of the annotation store *)

(** [endInteractions] ends the gesture and the panning, and a second
    [endInteractions] (mouse up, then mouse leave) returns the state of the
    first: nothing is committed twice. *)
Theorem endInteractions_idempotent (u1 u2 : string) (s : State) :
  endInteractions u2 (endInteractions u1 s) = endInteractions u1 s /\
  isDrawing (endInteractions u1 s) = false /\
  isPanning (endInteractions u1 s) = false /\
  (isDrawing s = true -> startPt s <> None -> currentPt s <> None ->
   startPt (endInteractions u1 s) = None /\ currentPt (endInteractions u1 s) = None).
Proof.
  unfold endInteractions. cbn [isDrawing startPt currentPt set_isPanning].
  destruct (isDrawing s), (startPt s), (currentPt s); cbv zeta;
    try destruct ((_ >? _) && (_ >? _));
    repeat split; intros; congruence.
Qed.

Lemma Math_min_comm (a b : num) : Math_min a b =n= Math_min b a.
Proof.
  destruct a as [x| | |], b as [y| | |]; cbn; trivial; try reflexivity.
  qcases; cbn; lra.
Qed.

Lemma Math_abs_sub_comm (a b : num) : Math_abs (a - b) = Math_abs (b - a) \/
  exists x y, a = Fin x /\ b = Fin y.
Proof.
  destruct a as [x| | |], b as [y| | |]; cbn; auto. right. eauto.
Qed.

Lemma ngt_abs_sub_comm (a b : num) :
  (Math_abs (a - b) >? Fin 5) = (Math_abs (b - a) >? Fin 5) /\
  Math_abs (a - b) =n= Math_abs (b - a).
Proof.
  destruct (Math_abs_sub_comm a b) as [-> | (x & y & -> & ->)].
  - split; [reflexivity | apply num_equiv_refl].
  - unfold ngt, nsub. cbn [nopp nadd Math_abs nlt num_equiv].
    assert (E : (Qabs (x + - y) == Qabs (y + - x))%Q).
    { change (Qabs (x - y) == Qabs (y - x))%Q. rewrite (Qabs_Qminus x y). reflexivity. }
    split; [|exact E].
    f_equal. destruct (Qle_bool (Qabs (x + - y)) 5) eqn:E1,
                      (Qle_bool (Qabs (y + - x)) 5) eqn:E2;
      try reflexivity; qfacts; rewrite E in E1; lra.
Qed.

(** The committed rectangle does not depend on the direction of the drag:
    from [a] to [b] or from [b] to [a], [endInteractions] either commits
    nothing in both cases, or commits annotations with the same id, the same
    name and the same x, y, w and h. *)
Theorem commit_direction_symmetric (uuid : string) (s : State) (a b : Pt.t) :
  let drag p q := set_currentPt (Some q) (set_startPt (Some p) (set_isDrawing true s)) in
  let l1 := boxes (endInteractions uuid (drag a b)) in
  let l2 := boxes (endInteractions uuid (drag b a)) in
  (l1 = boxes s /\ l2 = boxes s) \/
  exists b1 b2,
    l1 = boxes s ++ [b1] /\ l2 = boxes s ++ [b2] /\
    Box.id b1 = Box.id b2 /\ Box.name b1 = Box.name b2 /\
    Box.x b1 =n= Box.x b2 /\ Box.y b1 =n= Box.y b2 /\
    Box.w b1 =n= Box.w b2 /\ Box.h b1 =n= Box.h b2.
Proof.
  intros drag l1 l2. subst drag l1 l2. unfold endInteractions.
  cbn [isDrawing startPt currentPt set_isPanning set_currentPt set_startPt set_isDrawing].
  cbv zeta.
  destruct (ngt_abs_sub_comm (Pt.x b) (Pt.x a)) as [Ex Wx].
  destruct (ngt_abs_sub_comm (Pt.y b) (Pt.y a)) as [Ey Wy].
  rewrite <- Ex, <- Ey.
  destruct ((_ >? _) && (_ >? _)).
  - right. do 2 eexists. split; [reflexivity|]. split; [reflexivity|].
    cbn [Box.id Box.name Box.x Box.y Box.w Box.h].
    repeat split; try apply Math_min_comm; assumption.
  - left. split; reflexivity.
Qed.

Lemma ngt_abs_self (v : num) : (Math_abs (v - v) >? Fin 5) = false.
Proof.
  destruct v as [x| | |]; try reflexivity.
  unfold ngt, nsub. cbn [nopp nadd Math_abs nlt].
  apply negb_false_iff. apply Qle_bool_iff.
  assert (E : (x + - x == 0)%Q) by ring. rewrite E. cbn. lra.
Qed.

(** A click commits nothing: with an image loaded and Space not held, a mouse
    down followed at once by a mouse up (or a mouse leave) leaves the
    annotations as they were, and no gesture in progress. *)
Theorem click_commits_nothing env (e : MouseEvent) (uuid : string) (s : State) img :
  imageRef s = Some img -> spaceDown s = false ->
  boxes (onMouseUp uuid (onMouseDown env e s)) = boxes s /\
  isDrawing (onMouseUp uuid (onMouseDown env e s)) = false /\
  startPt (onMouseUp uuid (onMouseDown env e s)) = None /\
  currentPt (onMouseUp uuid (onMouseDown env e s)) = None.
Proof.
  intros Hi Hsp. unfold onMouseUp, onMouseDown, endInteractions.
  rewrite Hi, Hsp.
  cbn [isDrawing startPt currentPt set_isPanning set_currentPt set_startPt set_isDrawing].
  cbv zeta. rewrite (ngt_abs_self (Pt.x (eventToImageCoords env e s))).
  cbn [andb]. repeat split.
Qed.

Lemma set_boxes_set_boxes (l l' : list Box.t) (s : State) :
  set_boxes l (set_boxes l' s) = set_boxes l s.
Proof. reflexivity. Qed.

(** [deleteBox id] removes exactly the annotations that carry [id], whatever
    the ids are: an annotation is in the result if and only if it was there
    with another id; the ones kept are in their old order; no annotation
    carries [id] afterwards; deleting again changes nothing; and nothing but
    the annotations changes. *)
Theorem deleteBox_removes_exactly (id : string) (s : State) :
  (forall b, In b (boxes (deleteBox id s)) <-> In b (boxes s) /\ Box.id b <> id) /\
  (forall l1 b l2, boxes s = l1 ++ b :: l2 -> Box.id b <> id ->
     boxes (deleteBox id s)
     = boxes (deleteBox id (set_boxes l1 s)) ++ b :: boxes (deleteBox id (set_boxes l2 s))) /\
  ~ In id (box_ids (boxes (deleteBox id s))) /\
  deleteBox id (deleteBox id s) = deleteBox id s /\
  view_untouched s (deleteBox id s) /\
  imageRef (deleteBox id s) = imageRef s /\
  startPt (deleteBox id s) = startPt s /\ currentPt (deleteBox id s) = currentPt s.
Proof.
  unfold deleteBox. cbn [boxes set_boxes].
  assert (Hin : forall b, In b (filter (fun b => negb (Box.id b =? id)%string) (boxes s))
                          <-> In b (boxes s) /\ Box.id b <> id).
  { intros b. rewrite filter_In. split; intros [H1 H2]; split; try exact H1.
    - intro E. rewrite E, String.eqb_refl in H2. discriminate.
    - destruct (String.eqb_spec (Box.id b) id); [contradiction | reflexivity]. }
  split; [exact Hin|]. split.
  { intros l1 b l2 Hb Hne. rewrite Hb, filter_app. cbn [filter].
    destruct (String.eqb_spec (Box.id b) id); [contradiction|]. reflexivity. }
  split.
  { unfold box_ids. intros H. apply in_map_iff in H. destruct H as (b & Hid & Hb).
    apply Hin in Hb. destruct Hb as [_ Hne]. contradiction. }
  split.
  { rewrite set_boxes_set_boxes. f_equal. clear Hin.
    induction (boxes s) as [|b l IH]; [reflexivity|]. cbn [filter].
    destruct (negb (Box.id b =? id)%string) eqn:E; cbn [filter].
    - rewrite E. f_equal. exact IH.
    - exact IH. }
  repeat split.
Qed.

(** [updateBoxName id name] keeps the number, the order, the ids and the
    geometry of the annotations, whatever the ids are; afterwards every
    annotation that carries [id] has the name [name] and every other keeps
    its name; and of two renamings of the same id the last one wins. *)
Theorem updateBoxName_keeps_geometry (id name : string) (s : State) :
  let l := boxes s in
  let l' := boxes (updateBoxName id name s) in
  map Box.id l' = map Box.id l /\
  map Box.x l' = map Box.x l /\ map Box.y l' = map Box.y l /\
  map Box.w l' = map Box.w l /\ map Box.h l' = map Box.h l /\
  (forall i b, nth_error l i = Some b ->
     nth_error l' i = Some (if String.eqb (Box.id b) id then with_name name b else b)) /\
  (forall name0, updateBoxName id name (updateBoxName id name0 s)
                 = updateBoxName id name s) /\
  view_untouched s (updateBoxName id name s).
Proof.
  intros l l'. subst l l'. unfold updateBoxName. cbn [boxes set_boxes].
  repeat split; try (rewrite map_map; apply map_ext; intros b;
                     destruct (Box.id b =? id)%string; reflexivity).
  - intros i b Hb. rewrite nth_error_map, Hb. reflexivity.
  - intros name0. rewrite set_boxes_set_boxes. f_equal. rewrite map_map.
    apply map_ext. intros b. cbn [Box.id].
    destruct (Box.id b =? id)%string eqn:E; cbn [Box.id]; rewrite ?E; reflexivity.
Qed.

(** Renaming and deleting compose as expected: for different ids they
    commute; deleting an id after renaming it is deleting it; and renaming an
    id after deleting it changes nothing. *)
Theorem rename_delete_compose (id1 id2 name : string) (s : State) :
  (id1 <> id2 ->
   updateBoxName id1 name (deleteBox id2 s) = deleteBox id2 (updateBoxName id1 name s)) /\
  deleteBox id1 (updateBoxName id1 name s) = deleteBox id1 s /\
  updateBoxName id1 name (deleteBox id1 s) = deleteBox id1 s.
Proof.
  unfold updateBoxName, deleteBox. cbn [boxes set_boxes].
  rewrite !set_boxes_set_boxes.
  repeat split; try intros Hne; f_equal;
    induction (boxes s) as [|b l IH]; try reflexivity; cbn [map filter].
  - destruct (String.eqb_spec (Box.id b) id2) as [E2|E2];
      destruct (String.eqb_spec (Box.id b) id1) as [E1|E1];
      cbn [negb map filter Box.id].
    + congruence.
    + rewrite (proj2 (String.eqb_eq _ _) E2). cbn. exact IH.
    + rewrite (proj2 (String.eqb_eq _ _) E1), (proj2 (String.eqb_neq _ _) E2).
      cbn. f_equal. exact IH.
    + rewrite (proj2 (String.eqb_neq _ _) E1), (proj2 (String.eqb_neq _ _) E2).
      cbn. f_equal. exact IH.
  - destruct (String.eqb_spec (Box.id b) id1) as [E1|E1]; cbn [negb map filter Box.id].
    + rewrite (proj2 (String.eqb_eq _ _) E1). cbn. exact IH.
    + rewrite (proj2 (String.eqb_neq _ _) E1). cbn. f_equal. exact IH.
  - destruct (String.eqb_spec (Box.id b) id1) as [E1|E1]; cbn [negb map filter Box.id].
    + exact IH.
    + rewrite (proj2 (String.eqb_neq _ _) E1). f_equal. exact IH.
Qed.

(** * Properties of the renderer *)

Lemma strokes_app (l l' : list Cmd) : strokes (l ++ l') = strokes l ++ strokes l'.
Proof. unfold strokes. apply flat_map_app. Qed.

Lemma texts_app (l l' : list Cmd) : texts (l ++ l') = texts l ++ texts l'.
Proof. unfold texts. apply flat_map_app. Qed.

Lemma strokes_drawBoxes mt env sx sy idx bs :
  strokes (drawBoxes mt env sx sy idx bs) = map (boxOutline sx sy) bs.
Proof.
  revert idx. induction bs as [|b bs IH]; intros idx; [reflexivity|].
  cbn [drawBoxes map]. rewrite strokes_app, IH.
  unfold drawBox. destruct (boxOutline sx sy b) as [[[x y] w] h]. reflexivity.
Qed.

Lemma texts_drawBoxes mt env sx sy idx bs i b :
  nth_error bs i = Some b ->
  nth_error (texts (drawBoxes mt env sx sy idx bs)) i = Some (boxLabel b (idx + i)).
Proof.
  revert idx i. induction bs as [|b0 bs IH]; intros idx i Hb.
  - destruct i; discriminate.
  - cbn [drawBoxes]. rewrite texts_app.
    assert (E : texts (drawBox mt env sx sy b0 idx) = [boxLabel b0 idx]).
    { unfold drawBox. destruct (boxOutline sx sy b0) as [[[x y] w] h]. reflexivity. }
    rewrite E. destruct i as [|i]; cbn [nth_error app] in *.
    + injection Hb as <-. rewrite Nat.add_0_r. reflexivity.
    + rewrite (IH (S idx) i Hb). f_equal. f_equal. lia.
Qed.

Lemma length_texts_drawBoxes mt env sx sy idx bs :
  List.length (texts (drawBoxes mt env sx sy idx bs)) = List.length bs.
Proof.
  revert idx. induction bs as [|b0 bs IH]; intros idx; [reflexivity|].
  cbn [drawBoxes]. rewrite texts_app, length_app, IH.
  unfold drawBox. destruct (boxOutline sx sy b0) as [[[x y] w] h]. reflexivity.
Qed.

Lemma canvas_ops_drawBoxes mt env sx sy idx bs :
  canvas_ops (drawBoxes mt env sx sy idx bs) = [].
Proof.
  revert idx. induction bs as [|b bs IH]; intros idx; [reflexivity|].
  cbn [drawBoxes]. unfold canvas_ops in *. rewrite filter_app, IH.
  unfold drawBox. destruct (boxOutline sx sy b) as [[[x y] w] h]. reflexivity.
Qed.

Lemma canvas_ops_drawActive sx sy s : canvas_ops (drawActive sx sy s) = [].
Proof.
  unfold drawActive. destruct (isDrawing s), (startPt s), (currentPt s); reflexivity.
Qed.

(** What [draw] puts on the canvas, and in which order.  With no canvas it
    does nothing.  With a canvas it starts by resetting the transform and
    clearing the whole canvas.  With no image nothing after that sets a
    transform, clears or draws an image (of any size), no rectangle is
    stroked and the one text is the invitation to upload.  With an image the
    next two commands set the transform to the zoom and the pan and draw the
    image over the whole canvas; nothing after them sets a transform, clears
    or draws an image, and what follows strokes one rectangle per annotation,
    in order, followed by at most one rectangle for the gesture in progress,
    and none when no gesture is in progress; the i-th text filled is the name
    of the i-th annotation, or "Field i+1" when the name is empty. *)
Theorem draw_outlines_and_labels (mt : num -> string -> num) env (s : State) :
  (canvasRef s = None -> draw mt env s = []) /\
  (forall canvas, canvasRef s = Some canvas ->
     let cw := of_Z (width canvas) in
     let ch := of_Z (height canvas) in
     let clear := [ SetTransform (Fin 1) (Fin 0) (Fin 0) (Fin 1) (Fin 0) (Fin 0);
                    ClearRect (Fin 0) (Fin 0) cw ch ] in
     (imageRef s = None ->
        exists rest,
          draw mt env s = clear ++ rest /\
          canvas_ops rest = [] /\ strokes rest = [] /\
          texts rest = ["Upload an image to start annotating"%string]) /\
     (forall img, imageRef s = Some img ->
        let sx := cw / of_N (naturalWidth img) in
        let sy := ch / of_N (naturalHeight img) in
        exists rest,
          draw mt env s
          = clear ++
            [ SetTransform (zoomRef s) (Fin 0) (Fin 0) (zoomRef s)
                           (Pt.x (panRef s)) (Pt.y (panRef s));
              DrawImage (Fin 0) (Fin 0) cw ch ] ++ rest /\
          canvas_ops rest = [] /\
          strokes rest = map (boxOutline sx sy) (boxes s) ++ strokes (drawActive sx sy s) /\
          (List.length (strokes (drawActive sx sy s)) <= 1)%nat /\
          (isDrawing s = false -> strokes (drawActive sx sy s) = []) /\
          (forall i b, nth_error (boxes s) i = Some b ->
             nth_error (texts rest) i = Some (boxLabel b i) /\
             (Box.name b <> EmptyString -> boxLabel b i = Box.name b) /\
             (Box.name b = EmptyString ->
              boxLabel b i = String.append "Field " (decimal (i + 1)))))).
Proof.
  split.
  { intros Hc. unfold draw. rewrite Hc. reflexivity. }
  intros canvas Hc cw ch clear. unfold draw. rewrite Hc. fold cw. fold ch.
  split.
  { intros Hi. rewrite Hi. eexists. split; [reflexivity|].
    repeat split. }
  intros img Hi. rewrite Hi. cbv zeta.
  set (sx := cw / of_N (naturalWidth img)). set (sy := ch / of_N (naturalHeight img)).
  exists (drawBoxes mt env sx sy 0 (boxes s) ++ drawActive sx sy s).
  split; [reflexivity|].
  split.
  { unfold canvas_ops. rewrite filter_app.
    fold (canvas_ops (drawBoxes mt env sx sy 0 (boxes s))).
    fold (canvas_ops (drawActive sx sy s)).
    rewrite canvas_ops_drawBoxes, canvas_ops_drawActive. reflexivity. }
  split.
  { rewrite strokes_app, strokes_drawBoxes. reflexivity. }
  split.
  { unfold drawActive.
    destruct (isDrawing s), (startPt s), (currentPt s); cbn; lia. }
  split.
  { intros Hd. unfold drawActive. rewrite Hd. reflexivity. }
  intros i b Hb. split.
  - rewrite texts_app. rewrite nth_error_app1.
    + rewrite (texts_drawBoxes mt env sx sy 0 (boxes s) i b Hb). reflexivity.
    + rewrite length_texts_drawBoxes. apply nth_error_Some. congruence.
  - unfold boxLabel. split; intros Hn.
    + destruct (Box.name b); [contradiction | reflexivity].
    + rewrite Hn. reflexivity.
Qed.

(** ** Round trips through the transform *)

Lemma round_half_up_unique (v : Q) (k : Z) :
  (inject_Z k - (1 # 2) <= v)%Q -> (v < inject_Z k + (1 # 2))%Q -> round_half_up v = k.
Proof.
  intros H1 H2. destruct (round_half_up_bounds v) as [B1 B2].
  assert (L1 : (inject_Z (round_half_up v) < inject_Z (k + 1))%Q).
  { rewrite inject_Z_plus. change (inject_Z 1) with 1%Q. lra. }
  assert (L2 : (inject_Z (k - 1) < inject_Z (round_half_up v))%Q).
  { unfold Z.sub. rewrite inject_Z_plus, inject_Z_opp.
    change (inject_Z 1) with 1%Q. lra. }
  rewrite <- Zlt_Qlt in L1, L2. lia.
Qed.

Lemma round_half_up_inject_Z (k : Z) : round_half_up (inject_Z k) = k.
Proof. apply round_half_up_unique; lra. Qed.

(** The image is drawn over the whole canvas under the transform of zoom and
    pan, so the point [(tx, ty)] of the image, in natural pixels, is shown at
    the device pixel [zoom * (t * canvas / natural) + pan].  In a reachable
    state with non-degenerate canvas and image, a pointer over that device
    pixel maps back to integers that are [tx] and [ty] rounded down or up and
    clamped into the image; for integer coordinates within the image it maps
    back to the pixel itself. *)
Theorem pointer_round_trip (Math_exp : Q -> Q) env (e : MouseEvent) (s : State)
  canvas img (tx ty : Q) :
  reachable Math_exp s ->
  canvasRef s = Some canvas -> imageRef s = Some img ->
  width canvas <> 0%Z -> height canvas <> 0%Z ->
  naturalWidth img <> 0%N -> naturalHeight img <> 0%N ->
  canvasX env (clientX e)
    =n= zoomRef s * (Fin tx * (of_Z (width canvas) / of_N (naturalWidth img)))
        + Pt.x (panRef s) ->
  canvasY env (clientY e)
    =n= zoomRef s * (Fin ty * (of_Z (height canvas) / of_N (naturalHeight img)))
        + Pt.y (panRef s) ->
  exists kx ky : Z,
    eventToImageCoords env e s = Pt.mk (of_Z kx) (of_Z ky) /\
    (Z.max 0 (Z.min (Z.of_N (naturalWidth img)) (Qfloor tx)) <= kx
     <= Z.max 0 (Z.min (Z.of_N (naturalWidth img)) (Qceiling tx)))%Z /\
    (Z.max 0 (Z.min (Z.of_N (naturalHeight img)) (Qfloor ty)) <= ky
     <= Z.max 0 (Z.min (Z.of_N (naturalHeight img)) (Qceiling ty)))%Z /\
    (forall n : Z,
        (tx == inject_Z n)%Q -> (0 <= n <= Z.of_N (naturalWidth img))%Z -> kx = n) /\
    (forall m : Z,
        (ty == inject_Z m)%Q -> (0 <= m <= Z.of_N (naturalHeight img))%Z -> ky = m).
Proof.
  intros Hr Hc Hi Hw Hh Hnw Hnh Hx Hy.
  destruct (reachable_Inv Math_exp s Hr)
    as (((z & Hz & Hzr) & _) & _ & _ & (px & py & Hp)).
  assert (Hz0 : ~ (z == 0)%Q) by lra.
  pose proof (inject_N_nonzero _ Hnw) as Hnw'.
  pose proof (inject_N_nonzero _ Hnh) as Hnh'.
  assert (Hw' : ~ (inject_Z (width canvas) == 0)%Q).
  { intro E. apply Hw. apply (proj1 (inject_Z_injective _ 0) E). }
  assert (Hh' : ~ (inject_Z (height canvas) == 0)%Q).
  { intro E. apply Hh. apply (proj1 (inject_Z_injective _ 0) E). }
  rewrite canvasX_dprQ, Hz, Hp in Hx. rewrite canvasY_dprQ, Hz, Hp in Hy.
  unfold of_N, of_Z in Hx, Hy. cbn [Pt.x Pt.y ndiv] in Hx, Hy.
  rewrite (proj2 (Qeq_bool_false _ _) Hnw') in Hx.
  rewrite (proj2 (Qeq_bool_false _ _) Hnh') in Hy.
  cbn [nmul nadd num_equiv] in Hx, Hy.
  assert (E : eventToImageCoords env e s
    = Pt.mk (of_Z (Z.max 0 (Z.min (Z.of_N (naturalWidth img)) (round_half_up tx))))
            (of_Z (Z.max 0 (Z.min (Z.of_N (naturalHeight img)) (round_half_up ty))))).
  { rewrite (eventToImageCoords_finite env e s canvas img z px py Hc Hi Hw Hh Hz Hz0 Hp).
    f_equal; f_equal; f_equal; f_equal; apply round_half_up_comp.
    - rewrite Hx. field. repeat split; assumption.
    - rewrite Hy. field. repeat split; assumption. }
  do 2 eexists. split; [exact E|].
  pose proof (round_half_up_floor_ceiling tx) as Fx.
  pose proof (round_half_up_floor_ceiling ty) as Fy.
  split; [lia|]. split; [lia|].
  split.
  - intros n En Hn. rewrite (round_half_up_comp _ _ En), round_half_up_inject_Z. lia.
  - intros m Em Hm. rewrite (round_half_up_comp _ _ Em), round_half_up_inject_Z. lia.
Qed.

Lemma round_trip_axis (bx c n : Z) :
  (0 < c)%Z -> (0 < n)%Z -> (0 <= bx <= n)%Z ->
  let xd := round_half_up (inject_Z bx * (inject_Z c / inject_Z n)) in
  let k := Z.max 0 (Z.min n (round_half_up (inject_Z xd * (inject_Z n / inject_Z c)))) in
  (2 * c * Z.abs (k - bx) <= c + n)%Z /\ ((n <= c)%Z -> k = bx).
Proof.
  intros Hc Hn Hb xd k.
  assert (HC : (0 < inject_Z c)%Q) by (change 0%Q with (inject_Z 0); rewrite <- Zlt_Qlt; exact Hc).
  assert (HN : (0 < inject_Z n)%Q) by (change 0%Q with (inject_Z 0); rewrite <- Zlt_Qlt; exact Hn).
  destruct (Z.eq_dec n c) as [Enc | Hnc].
  - subst c.
    assert (E1 : (inject_Z bx * (inject_Z n / inject_Z n) == inject_Z bx)%Q)
      by (field; lra).
    assert (Exd : xd = bx).
    { unfold xd. rewrite (round_half_up_comp _ _ E1). apply round_half_up_inject_Z. }
    assert (E2 : (inject_Z xd * (inject_Z n / inject_Z n) == inject_Z bx)%Q)
      by (rewrite Exd; field; lra).
    assert (Ek : k = bx).
    { unfold k. rewrite (round_half_up_comp _ _ E2), round_half_up_inject_Z. lia. }
    rewrite Ek. split; [|reflexivity]. rewrite Z.sub_diag. cbn. lia.
  - set (k0 := round_half_up (inject_Z xd * (inject_Z n / inject_Z c))) in *.
    destruct (round_half_up_bounds (inject_Z bx * (inject_Z c / inject_Z n))) as [X1 X2].
    fold xd in X1, X2.
    destruct (round_half_up_bounds (inject_Z xd * (inject_Z n / inject_Z c))) as [K1 K2].
    fold k0 in K1, K2.
    assert (X1' : (inject_Z xd * inject_Z n <= inject_Z bx * inject_Z c + inject_Z n * (1 # 2))%Q).
    { assert (E : (inject_Z bx * inject_Z c + inject_Z n * (1 # 2)
                   == (inject_Z bx * (inject_Z c / inject_Z n) + (1 # 2)) * inject_Z n)%Q)
        by (field; lra).
      rewrite E. apply Qmult_le_compat_r; lra. }
    assert (X2' : (inject_Z bx * inject_Z c - inject_Z n * (1 # 2) < inject_Z xd * inject_Z n)%Q).
    { assert (E : (inject_Z bx * inject_Z c - inject_Z n * (1 # 2)
                   == (inject_Z bx * (inject_Z c / inject_Z n) - (1 # 2)) * inject_Z n)%Q)
        by (field; lra).
      rewrite E. apply Qmult_lt_compat_r; lra. }
    assert (K1' : (inject_Z k0 * inject_Z c <= inject_Z xd * inject_Z n + inject_Z c * (1 # 2))%Q).
    { assert (E : (inject_Z xd * inject_Z n + inject_Z c * (1 # 2)
                   == (inject_Z xd * (inject_Z n / inject_Z c) + (1 # 2)) * inject_Z c)%Q)
        by (field; lra).
      rewrite E. apply Qmult_le_compat_r; lra. }
    assert (K2' : (inject_Z xd * inject_Z n - inject_Z c * (1 # 2) < inject_Z k0 * inject_Z c)%Q).
    { assert (E : (inject_Z xd * inject_Z n - inject_Z c * (1 # 2)
                   == (inject_Z xd * (inject_Z n / inject_Z c) - (1 # 2)) * inject_Z c)%Q)
        by (field; lra).
      rewrite E. apply Qmult_lt_compat_r; lra. }
    assert (U : (2 * (k0 * c) <= 2 * (bx * c) + n + c)%Z).
    { rewrite Zle_Qle. rewrite !inject_Z_plus, !inject_Z_mult.
      change (inject_Z 2) with 2%Q. lra. }
    assert (L : (2 * (bx * c) - n - c < 2 * (k0 * c))%Z).
    { rewrite Zlt_Qlt. unfold Z.sub. rewrite !inject_Z_plus, !inject_Z_mult, !inject_Z_opp.
      change (inject_Z 2) with 2%Q. lra. }
    assert (Hk : (Z.abs (k - bx) <= Z.abs (k0 - bx))%Z) by (unfold k; lia).
    assert (B0 : (2 * c * Z.abs (k0 - bx) <= c + n)%Z) by nia.
    split; [nia|].
    intros Hle. assert (Hlt : (n < c)%Z) by lia.
    assert (k0 = bx) by nia. unfold k. lia.
Qed.

(** The outline of an annotation is stroked at the rounded canvas position of
    its corner.  In a reachable state, for an annotation whose corner
    [(bx, b_y)] has integer coordinates within the image, a pointer over the
    device pixel of the stroked corner maps back to a natural point [(kx, ky)]
    with [2 * canvas * |k - b| <= canvas + natural] on each axis; when the
    canvas is at least as large as the image on an axis, it maps back to the
    corner itself on that axis. *)
Theorem outline_round_trip (Math_exp : Q -> Q) env (e : MouseEvent) (s : State)
  canvas img (b : Box.t) (bx b_y : Z) :
  reachable Math_exp s ->
  canvasRef s = Some canvas -> imageRef s = Some img ->
  (0 < width canvas)%Z -> (0 < height canvas)%Z ->
  naturalWidth img <> 0%N -> naturalHeight img <> 0%N ->
  Box.x b = of_Z bx -> Box.y b = of_Z b_y ->
  (0 <= bx <= Z.of_N (naturalWidth img))%Z ->
  (0 <= b_y <= Z.of_N (naturalHeight img))%Z ->
  let sx := of_Z (width canvas) / of_N (naturalWidth img) in
  let sy := of_Z (height canvas) / of_N (naturalHeight img) in
  let outline := boxOutline sx sy b in
  let xd := fst (fst (fst outline)) in
  let yd := snd (fst (fst outline)) in
  canvasX env (clientX e) =n= zoomRef s * xd + Pt.x (panRef s) ->
  canvasY env (clientY e) =n= zoomRef s * yd + Pt.y (panRef s) ->
  exists kx ky : Z,
    eventToImageCoords env e s = Pt.mk (of_Z kx) (of_Z ky) /\
    (2 * width canvas * Z.abs (kx - bx)
     <= width canvas + Z.of_N (naturalWidth img))%Z /\
    (2 * height canvas * Z.abs (ky - b_y)
     <= height canvas + Z.of_N (naturalHeight img))%Z /\
    ((Z.of_N (naturalWidth img) <= width canvas)%Z -> kx = bx) /\
    ((Z.of_N (naturalHeight img) <= height canvas)%Z -> ky = b_y).
Proof.
  intros Hr Hc Hi Hw Hh Hnw Hnh Hbx Hby Rx Ry sx sy outline xd yd Hx Hy.
  destruct (reachable_Inv Math_exp s Hr)
    as (((z & Hz & Hzr) & _) & _ & _ & (px & py & Hp)).
  assert (Hz0 : ~ (z == 0)%Q) by lra.
  assert (Hw0 : width canvas <> 0%Z) by lia.
  assert (Hh0 : height canvas <> 0%Z) by lia.
  pose proof (inject_N_nonzero _ Hnw) as Hnw'.
  pose proof (inject_N_nonzero _ Hnh) as Hnh'.
  assert (Hw' : ~ (inject_Z (width canvas) == 0)%Q).
  { intro E. apply Hw0. apply (proj1 (inject_Z_injective _ 0) E). }
  assert (Hh' : ~ (inject_Z (height canvas) == 0)%Q).
  { intro E. apply Hh0. apply (proj1 (inject_Z_injective _ 0) E). }
  assert (Exd : xd = of_Z (round_half_up
            (inject_Z bx * (inject_Z (width canvas) / inject_Z (Z.of_N (naturalWidth img)))))).
  { unfold xd, outline, boxOutline, sx. cbn [fst snd]. rewrite Hbx.
    unfold of_N, of_Z. cbn [ndiv]. rewrite (proj2 (Qeq_bool_false _ _) Hnw'). reflexivity. }
  assert (Eyd : yd = of_Z (round_half_up
            (inject_Z b_y * (inject_Z (height canvas) / inject_Z (Z.of_N (naturalHeight img)))))).
  { unfold yd, outline, boxOutline, sy. cbn [fst snd]. rewrite Hby.
    unfold of_N, of_Z. cbn [ndiv]. rewrite (proj2 (Qeq_bool_false _ _) Hnh'). reflexivity. }
  set (xz := round_half_up
         (inject_Z bx * (inject_Z (width canvas) / inject_Z (Z.of_N (naturalWidth img))))) in *.
  set (yz := round_half_up
         (inject_Z b_y * (inject_Z (height canvas) / inject_Z (Z.of_N (naturalHeight img))))) in *.
  rewrite canvasX_dprQ, Hz, Hp, Exd in Hx. rewrite canvasY_dprQ, Hz, Hp, Eyd in Hy.
  unfold of_Z in Hx, Hy. cbn [Pt.x Pt.y nmul nadd num_equiv] in Hx, Hy.
  exists (Z.max 0 (Z.min (Z.of_N (naturalWidth img))
            (round_half_up (inject_Z xz * (inject_Z (Z.of_N (naturalWidth img))
                                           / inject_Z (width canvas)))))),
         (Z.max 0 (Z.min (Z.of_N (naturalHeight img))
            (round_half_up (inject_Z yz * (inject_Z (Z.of_N (naturalHeight img))
                                           / inject_Z (height canvas)))))).
  split.
  { rewrite (eventToImageCoords_finite env e s canvas img z px py Hc Hi Hw0 Hh0 Hz Hz0 Hp).
    f_equal; f_equal; f_equal; f_equal; apply round_half_up_comp.
    - rewrite Hx. field. repeat split; assumption.
    - rewrite Hy. field. repeat split; assumption. }
  assert (Pw : (0 < Z.of_N (naturalWidth img))%Z) by lia.
  assert (Ph : (0 < Z.of_N (naturalHeight img))%Z) by lia.
  destruct (round_trip_axis bx (width canvas) (Z.of_N (naturalWidth img)) Hw Pw Rx)
    as [Bx Kx].
  destruct (round_trip_axis b_y (height canvas) (Z.of_N (naturalHeight img)) Hh Ph Ry)
    as [By Ky].
  repeat split; assumption.
Qed.

(** * Properties of the export *)

Lemma toFixed6_unit (q : Q) :
  (0 <= q <= 1)%Q ->
  exists p,
    toFixed6 (Fin q) = Fin p /\ (0 <= p <= 1)%Q /\
    (p - q <= 1 # 2000000)%Q /\ (q - p <= 1 # 2000000)%Q.
Proof.
  intros Hq. unfold toFixed6.
  assert (Hbig : (1 < inject_Z (10 ^ 21))%Q) by reflexivity.
  assert (Habs : (Qabs q == q)%Q) by (apply Qabs_pos; lra).
  assert (E1 : Qle_bool (inject_Z (10 ^ 21)) (Qabs q) = false).
  { apply Qle_bool_false. rewrite Habs. lra. }
  assert (E2 : Qle_bool 0 q = true) by (apply Qle_bool_iff; lra).
  rewrite E1, E2. eexists. split; [reflexivity|].
  destruct (round_half_up_bounds (q * inject_Z 1000000)) as [B1 B2].
  assert (R0 : (0 <= round_half_up (q * inject_Z 1000000))%Z).
  { rewrite <- (round_half_up_inject_Z 0). apply round_half_up_mono.
    change (inject_Z 0) with 0%Q. change (inject_Z 1000000) with 1000000%Q. lra. }
  assert (R1 : (round_half_up (q * inject_Z 1000000) <= 1000000)%Z).
  { rewrite <- (round_half_up_inject_Z 1000000) at 2. apply round_half_up_mono.
    change (inject_Z 1000000) with 1000000%Q. lra. }
  rewrite Zle_Qle in R0, R1.
  change (inject_Z 0) with 0%Q in R0. change (inject_Z 1000000) with 1000000%Q in *.
  unfold Qdiv. change (/ 1000000)%Q with (1 # 1000000)%Q.
  repeat split; lra.
Qed.

(** One coordinate of the percent rectangle. *)
Lemma percent_axis (v : num) (k : Z) (n : N) :
  n <> 0%N -> v =n= of_Z k -> (0 <= k <= Z.of_N n)%Z ->
  exists p,
    toFixed6 (v / of_N n) = Fin p /\ (0 <= p <= 1)%Q /\
    (p - inject_Z k / inject_Z (Z.of_N n) <= 1 # 2000000)%Q /\
    (inject_Z k / inject_Z (Z.of_N n) - p <= 1 # 2000000)%Q /\
    ((Z.of_N n < 1000000)%Z -> round_half_up (p * inject_Z (Z.of_N n)) = k).
Proof.
  intros Hn Hv Hk. destruct v as [q| | |]; try contradiction.
  unfold of_Z in Hv. cbn [num_equiv] in Hv.
  pose proof (inject_N_nonzero n Hn) as Hn'.
  assert (HN : (0 < inject_Z (Z.of_N n))%Q).
  { change 0%Q with (inject_Z 0). rewrite <- Zlt_Qlt.
    pose proof (Z_of_N_nonzero n Hn). lia. }
  destruct Hk as [Hk0 Hk1]. rewrite Zle_Qle in Hk0, Hk1.
  change (inject_Z 0) with 0%Q in Hk0.
  assert (Hi : (0 < / inject_Z (Z.of_N n))%Q) by (apply Qinv_lt_0_compat; exact HN).
  assert (Hq : (0 <= q / inject_Z (Z.of_N n) <= 1)%Q).
  { rewrite Hv. split.
    - unfold Qdiv. apply Qmult_le_0_compat; lra.
    - apply Qle_shift_div_r; [exact HN | lra]. }
  destruct (toFixed6_unit _ Hq) as (p & Ep & Rp & D1 & D2).
  exists p. unfold of_N, of_Z. cbn [ndiv].
  rewrite (proj2 (Qeq_bool_false _ _) Hn'). split; [exact Ep|].
  split; [exact Rp|].
  assert (Eq : (q / inject_Z (Z.of_N n) == inject_Z k / inject_Z (Z.of_N n))%Q)
    by (rewrite Hv; reflexivity).
  rewrite Eq in D1, D2. split; [exact D1|]. split; [exact D2|].
  intros Hsmall. rewrite Zlt_Qlt in Hsmall.
  change (inject_Z 1000000) with 1000000%Q in Hsmall.
  set (N := inject_Z (Z.of_N n)) in *.
  assert (EkN : (inject_Z k / N * N == inject_Z k)%Q) by (field; exact Hn').
  assert (M1 : ((p - inject_Z k / N) * N <= (1 # 2000000) * N)%Q)
    by (apply Qmult_le_compat_r; lra).
  assert (M2 : ((inject_Z k / N - p) * N <= (1 # 2000000) * N)%Q)
    by (apply Qmult_le_compat_r; lra).
  apply round_half_up_unique.
  - assert (E : (p * N == inject_Z k - (inject_Z k / N - p) * N)%Q)
      by (rewrite <- EkN at 1; ring).
    rewrite E. lra.
  - assert (E : (p * N == inject_Z k + (p - inject_Z k / N) * N)%Q)
      by (rewrite <- EkN at 1; ring).
    rewrite E. lra.
Qed.

(** The percent rectangle of an exported annotation.  For an image with
    non-zero natural sizes and an annotation with integer coordinates that
    lies within it, each percentage is a number of [0, 1] within 0.0000005 of
    the exact ratio; and for an image of less than 1000000 pixels a side, the
    pixel rectangle is got back by multiplying each percentage by the natural
    size and rounding.  The field carries the id, the name and the pixel
    rectangle of the annotation. *)
Theorem export_percent_round_trip (img : Image) (b : Box.t) (kx ky kw kh : Z) :
  naturalWidth img <> 0%N -> naturalHeight img <> 0%N ->
  Box.x b =n= of_Z kx -> Box.y b =n= of_Z ky ->
  Box.w b =n= of_Z kw -> Box.h b =n= of_Z kh ->
  (0 <= kx)%Z -> (0 <= ky)%Z -> (0 <= kw)%Z -> (0 <= kh)%Z ->
  (kx + kw <= Z.of_N (naturalWidth img))%Z ->
  (ky + kh <= Z.of_N (naturalHeight img))%Z ->
  let f := exportField img b in
  let nw := inject_Z (Z.of_N (naturalWidth img)) in
  let nh := inject_Z (Z.of_N (naturalHeight img)) in
  field_id f = Box.id b /\ field_name f = Box.name b /\
  pixels f = Px.mk (Box.x b) (Box.y b) (Box.w b) (Box.h b) /\
  exists px py pw ph : Q,
    percent f = Px.mk (Fin px) (Fin py) (Fin pw) (Fin ph) /\
    (0 <= px <= 1 /\ 0 <= py <= 1 /\ 0 <= pw <= 1 /\ 0 <= ph <= 1)%Q /\
    (px - inject_Z kx / nw <= 1 # 2000000 /\ inject_Z kx / nw - px <= 1 # 2000000)%Q /\
    (py - inject_Z ky / nh <= 1 # 2000000 /\ inject_Z ky / nh - py <= 1 # 2000000)%Q /\
    (pw - inject_Z kw / nw <= 1 # 2000000 /\ inject_Z kw / nw - pw <= 1 # 2000000)%Q /\
    (ph - inject_Z kh / nh <= 1 # 2000000 /\ inject_Z kh / nh - ph <= 1 # 2000000)%Q /\
    ((Z.of_N (naturalWidth img) < 1000000)%Z ->
     round_half_up (px * nw) = kx /\ round_half_up (pw * nw) = kw) /\
    ((Z.of_N (naturalHeight img) < 1000000)%Z ->
     round_half_up (py * nh) = ky /\ round_half_up (ph * nh) = kh).
Proof.
  intros Hnw Hnh Hx Hy Hw Hh Px0 Py0 Pw0 Ph0 Hxw Hyh f nw nh.
  split; [reflexivity|]. split; [reflexivity|]. split; [reflexivity|].
  destruct (percent_axis (Box.x b) kx (naturalWidth img) Hnw Hx)
    as (px & Ex & Rx & Ax & Bx & Tx); [lia|].
  destruct (percent_axis (Box.y b) ky (naturalHeight img) Hnh Hy)
    as (py & Ey & Ry & Ay & By & Ty); [lia|].
  destruct (percent_axis (Box.w b) kw (naturalWidth img) Hnw Hw)
    as (pw & Ew & Rw & Aw & Bw & Tw); [lia|].
  destruct (percent_axis (Box.h b) kh (naturalHeight img) Hnh Hh)
    as (ph & Eh & Rh & Ah & Bh & Th); [lia|].
  exists px, py, pw, ph.
  split; [unfold f, exportField; cbn [percent]; rewrite Ex, Ey, Ew, Eh; reflexivity|].
  repeat split; try apply Rx; try apply Ry; try apply Rw; try apply Rh;
    try assumption; auto.
Qed.

(** [exportJson] does nothing without an image.  With an image it replaces the
    exported text by the serialization of a payload that has one field per
    annotation, in order, with the ids and names of the annotations, the
    natural size of the image, and the image name or ["uploaded-image"] when
    the name is empty; it clears the [copied] flag and leaves everything else
    as it was. *)
Theorem exportJson_payload (JSON_stringify : Payload -> string) (app : App) :
  (imageRef (core app) = None -> exportJson JSON_stringify app = app) /\
  (forall img, imageRef (core app) = Some img ->
     let app' := exportJson JSON_stringify app in
     let payload := exportPayload (imageName app) img (boxes (core app)) in
     exportedJson app' = JSON_stringify payload /\
     copied app' = false /\ core app' = core app /\
     imageUrl app' = imageUrl app /\ imageName app' = imageName app /\
     map field_id (fields payload) = box_ids (boxes (core app)) /\
     map field_name (fields payload) = map Box.name (boxes (core app)) /\
     map pixels (fields payload)
     = map (fun b => Px.mk (Box.x b) (Box.y b) (Box.w b) (Box.h b)) (boxes (core app)) /\
     image_width payload = naturalWidth img /\
     image_height payload = naturalHeight img /\
     image_name payload <> EmptyString /\
     (imageName app <> EmptyString -> image_name payload = imageName app) /\
     (imageName app = EmptyString -> image_name payload = "uploaded-image"%string)).
Proof.
  unfold exportJson. split.
  - intros ->. reflexivity.
  - intros img ->. cbv zeta. cbn [exportedJson copied core imageUrl imageName].
    unfold exportPayload. cbn [fields image_width image_height image_name].
    unfold box_ids. rewrite !map_map.
    repeat split.
    + destruct (imageName app); cbn; discriminate.
    + intros H. destruct (imageName app); [contradiction | reflexivity].
    + intros H. rewrite H. reflexivity.
Qed.

(** * Properties of the resize observer *)

Lemma observedWidth_finite (inlineSize : option Q) (clientWidth : Z) :
  exists w, observedWidth inlineSize clientWidth = Fin w.
Proof.
  unfold observedWidth, or_default, of_Z.
  destruct inlineSize as [q|]; [destruct (Qeq_bool q 0)|]; eexists; reflexivity.
Qed.

Lemma nlt_abs_self (w : Q) : nlt (Math_abs (Fin w - Fin w)) (Fin 1) = true.
Proof.
  unfold nsub. cbn [nopp nadd Math_abs nlt]. apply negb_true_iff.
  apply Qle_bool_false. assert (E : (w + - w == 0)%Q) by ring. rewrite E. reflexivity.
Qed.

(** The resize callback ignores a width within one unit of the last width it
    reacted to, and otherwise records the width and requests a frame; either
    way, the width it has recorded afterwards is within one unit of the width
    it has just observed. *)
Theorem resizeCallback_tracks_width (inlineSize : option Q) (clientWidth : Z)
  (handle : positive) (o : Observer) :
  let w := observedWidth inlineSize clientWidth in
  let o' := resizeCallback inlineSize clientWidth handle o in
  (nlt (Math_abs (w - lastWidth o)) (Fin 1) = true -> o' = o) /\
  (nlt (Math_abs (w - lastWidth o)) (Fin 1) = false ->
   lastWidth o' = w /\ frame o' = Npos handle /\ In handle (pending o')) /\
  nlt (Math_abs (w - lastWidth o')) (Fin 1) = true.
Proof.
  intros w o'. subst w o'. unfold resizeCallback. fold (observedWidth inlineSize clientWidth).
  destruct (nlt (Math_abs (observedWidth inlineSize clientWidth - lastWidth o)) (Fin 1)) eqn:E.
  - repeat split; try discriminate. exact E.
  - split; [discriminate|]. cbn [lastWidth frame pending].
    split; [intros _; repeat split; left; reflexivity|].
    destruct (observedWidth_finite inlineSize clientWidth) as (w & ->).
    apply nlt_abs_self.
Qed.

Lemma one_pending_step (o : Observer) (ev : ObserverEvent) :
  one_pending o -> one_pending (observer_step o ev).
Proof.
  intros H. destruct ev as [inlineSize clientWidth handle | handle]; cbn [observer_step].
  - unfold resizeCallback.
    match goal with |- context [if ?t then o else _] => destruct t end; [exact H|].
    right. exists handle. cbn [frame pending]. split; [reflexivity|]. f_equal.
    destruct H as [H | (f & Hf & H)]; rewrite H.
    + destruct (frame o); reflexivity.
    + rewrite Hf. cbn [filter]. rewrite Pos.eqb_refl. reflexivity.
  - unfold frameRuns. destruct H as [H | (f & Hf & H)].
    + left. cbn [pending]. rewrite H. reflexivity.
    + cbn [pending]. rewrite H. cbn [filter].
      destruct (Pos.eqb f handle); cbn [negb].
      * left. reflexivity.
      * right. exists f. split; [exact Hf | reflexivity].
Qed.

(** The observer never has two animation frames pending: whatever the
    sequence of resizes and of frames run, starting from the state of the
    effect, at most one frame is pending, and it is the one whose handle the
    observer holds. *)
Theorem observer_one_pending (evs : list ObserverEvent) :
  let o := fold_left observer_step evs observer_initial in
  one_pending o /\ (List.length (pending o) <= 1)%nat.
Proof.
  intros o. assert (H : one_pending o).
  { subst o. assert (H0 : one_pending observer_initial) by (left; reflexivity).
    revert H0. generalize observer_initial.
    induction evs as [|ev evs IH]; intros o0 H0; [exact H0|].
    cbn [fold_left]. apply IH, one_pending_step, H0. }
  split; [exact H|].
  destruct H as [-> | (f & _ & ->)]; cbn; lia.
Qed.

(** * The further properties on concrete runs *)

Lemma image_covers_viewport_witness :
  reachable demo_exp demo_zoomed /\
  canvasRef demo_zoomed = Some (mkCanvas 400 300 (Some (Fin 400)) (Some (Fin 300))) /\
  exists px py,
    panRef demo_zoomed = Pt.mk (Fin px) (Fin py) /\
    (px <= 0 /\ 400 <= px + 2 * 400 /\ py <= 0 /\ 300 <= py + 2 * 300)%Q.
Proof.
  assert (H : reachable demo_exp demo_zoomed).
  { do 2 apply reachable_step. apply reachable_initial. }
  split; [exact H|]. split; [reflexivity|].
  destruct (image_covers_viewport demo_exp demo_zoomed _ H eq_refl)
    as (z & px & py & Hz & Hp & Hin & _).
  - cbn. discriminate.
  - cbn. discriminate.
  - exists px, py. split; [exact Hp|].
    assert (Ez : z = 2%Q) by (vm_compute in Hz; injection Hz as <-; reflexivity).
    subst z. apply Hin. vm_compute. discriminate.
Defined.

Lemma zoomAt_noop_at_limits_witness :
  let st := zoomAt (Fin 200) (Fin 150) (Fin 1000) demo_loaded in
  zoomRef st = Fin 8 /\ zoomAt (Fin 200) (Fin 150) (Fin 2) st = st.
Proof.
  intros st. split; [reflexivity|].
  apply (zoomAt_noop_at_limits (Fin 200) (Fin 150) 2 st 8 eq_refl).
  left. split; [reflexivity | vm_compute; discriminate].
Defined.

Lemma drag_follows_pointer_witness :
  let s := step demo_exp demo_env (KeyDown "Space") demo_zoomed in
  let s1 := onMouseDown demo_env (mkMouseEvent 100 120) s in
  reachable demo_exp s /\ imageRef s = Some demo_image /\ spaceDown s = true /\
  isPanning s1 = true /\
  panRef (onMouseMove demo_env (mkMouseEvent 90 100)
            (onMouseMove demo_env (mkMouseEvent 300 10) s1))
  = panRef (onMouseMove demo_env (mkMouseEvent 90 100) s1) /\
  (Pt.x (panRef (onMouseMove demo_env (mkMouseEvent 90 100) s1))
   <=? Pt.x (panRef (onMouseMove demo_env (mkMouseEvent 110 100) s1))) = true.
Proof.
  intros s s1.
  assert (H : reachable demo_exp s).
  { do 3 apply reachable_step. apply reachable_initial. }
  split; [exact H|]. split; [reflexivity|]. split; [reflexivity|].
  destruct (drag_follows_pointer demo_exp demo_env (mkMouseEvent 100 120) s
              demo_image _ H eq_refl eq_refl eq_refl)
    as (Hp & _ & _ & _ & Hpath & Hmono).
  split; [exact Hp|]. split; [apply Hpath|].
  apply (Hmono demo_env (mkMouseEvent 90 100) (mkMouseEvent 110 100));
    vm_compute; [reflexivity | discriminate].
Defined.

Lemma wheel_pan_keeps_other_axis_witness :
  let s := step demo_exp demo_env (KeyDown "Space") demo_zoomed in
  let e := mkWheelEvent 200 150 0 30 0 false false true in
  reachable demo_exp s /\ spaceDown s = true /\
  Pt.y (panRef (wheelHandler demo_exp demo_env e s)) =n= Pt.y (panRef s).
Proof.
  intros s e.
  assert (H : reachable demo_exp s).
  { do 3 apply reachable_step. apply reachable_initial. }
  split; [exact H|]. split; [reflexivity|].
  apply (proj1 (wheel_pan_keeps_other_axis demo_exp demo_env e s _ H
                  eq_refl eq_refl eq_refl)).
  reflexivity.
Defined.

Lemma fitCanvasToContainer_sizes_witness :
  let s := set_imageRef (Some demo_image) demo_initial in
  canvasRef s = Some (mkCanvas 300 150 None None) /\
  exists (c' : Canvas) (h pw ph : Z),
    canvasRef (fitCanvasToContainer demo_env s) = Some c' /\
    (2 * Z.abs (h * 800 - 400 * 600) <= 800)%Z /\
    parseInt_px (style_width c') =n= of_Z 400 /\
    ((0 <= h)%Z -> parseInt_px (style_height c') =n= of_Z h) /\
    ((0 <= pw <= 2147483647)%Z -> width c' = pw) /\
    ((0 <= ph <= 2147483647)%Z -> height c' = ph).
Proof.
  intros s. split; [reflexivity|].
  destruct (fitCanvasToContainer_sizes demo_env s _ _ _ eq_refl eq_refl eq_refl)
    as (c' & h & pw & ph & Hc & Bh & _ & _ & Sw & _ & Sh & _ & Pw & Ph & _).
  - discriminate.
  - discriminate.
  - exists c', h, pw, ph. split; [exact Hc|]. split; [exact Bh|].
    split; [apply Sw; discriminate|].
    split; [exact Sh|]. split; [exact Pw | exact Ph].
Defined.

Lemma eventToImageCoords_monotone_witness :
  reachable demo_exp demo_zoomed /\
  exists x1 y1 x2 y2 : Z,
    eventToImageCoords demo_env (mkMouseEvent 50 60) demo_zoomed = Pt.mk (of_Z x1) (of_Z y1) /\
    eventToImageCoords demo_env (mkMouseEvent 70 90) demo_zoomed = Pt.mk (of_Z x2) (of_Z y2) /\
    (x1 <= x2)%Z /\ (y1 <= y2)%Z.
Proof.
  assert (H : reachable demo_exp demo_zoomed).
  { do 2 apply reachable_step. apply reachable_initial. }
  split; [exact H|].
  destruct (eventToImageCoords_monotone demo_exp demo_env (mkMouseEvent 50 60)
              (mkMouseEvent 70 90) demo_zoomed _ _ H eq_refl eq_refl)
    as (x1 & y1 & x2 & y2 & E1 & E2 & Hx & Hy).
  - reflexivity.
  - reflexivity.
  - reflexivity.
  - exists x1, y1, x2, y2. split; [exact E1|]. split; [exact E2|].
    split; [apply Hx | apply Hy]; vm_compute; discriminate.
Defined.

Lemma click_commits_nothing_witness :
  imageRef demo_loaded = Some demo_image /\ spaceDown demo_loaded = false /\
  boxes (onMouseUp "u1" (onMouseDown demo_env (mkMouseEvent 50 50) demo_loaded))
  = boxes demo_loaded.
Proof.
  split; [reflexivity|]. split; [reflexivity|].
  exact (proj1 (click_commits_nothing demo_env (mkMouseEvent 50 50) "u1" demo_loaded
                  demo_image eq_refl eq_refl)).
Defined.

Lemma pointer_round_trip_witness :
  reachable demo_exp demo_zoomed /\
  eventToImageCoords demo_env (mkMouseEvent 300 250) demo_zoomed
  = Pt.mk (of_Z 500) (of_Z 400).
Proof.
  assert (H : reachable demo_exp demo_zoomed).
  { do 2 apply reachable_step. apply reachable_initial. }
  split; [exact H|].
  destruct (pointer_round_trip demo_exp demo_env (mkMouseEvent 300 250) demo_zoomed
              (mkCanvas 400 300 (Some (Fin 400)) (Some (Fin 300))) demo_image
              500 400 H eq_refl eq_refl)
    as (kx & ky & E & _ & _ & Hn & Hm).
  - discriminate.
  - discriminate.
  - discriminate.
  - discriminate.
  - vm_compute. reflexivity.
  - vm_compute. reflexivity.
  - rewrite E, (Hn 500%Z), (Hm 400%Z);
      try reflexivity; split; discriminate.
Defined.

Lemma outline_round_trip_witness :
  let b := Box.mk "a" (of_Z 500) (of_Z 400) (of_Z 100) (of_Z 60) "" in
  reachable demo_exp demo_zoomed /\
  boxOutline (of_Z 400 / of_N 800) (of_Z 300 / of_N 600) b
  = (of_Z 250, of_Z 200, of_Z 50, of_Z 30) /\
  exists kx ky : Z,
    eventToImageCoords demo_env (mkMouseEvent 300 250) demo_zoomed
    = Pt.mk (of_Z kx) (of_Z ky) /\
    (2 * 400 * Z.abs (kx - 500) <= 400 + 800)%Z /\
    (2 * 300 * Z.abs (ky - 400) <= 300 + 600)%Z.
Proof.
  intros b.
  assert (H : reachable demo_exp demo_zoomed).
  { do 2 apply reachable_step. apply reachable_initial. }
  split; [exact H|]. split; [reflexivity|].
  destruct (outline_round_trip demo_exp demo_env (mkMouseEvent 300 250) demo_zoomed
              (mkCanvas 400 300 (Some (Fin 400)) (Some (Fin 300))) demo_image b 500 400
              H eq_refl eq_refl)
    as (kx & ky & E & Bx & By & _); try reflexivity; try discriminate;
    try (split; discriminate); try (vm_compute; reflexivity).
  exists kx, ky. split; [exact E|]. split; [exact Bx | exact By].
Defined.

Lemma export_percent_round_trip_witness :
  box_in_image demo_image (demo_box "a" "total") /\
  exists px py pw ph : Q,
    percent (exportField demo_image (demo_box "a" "total"))
    = Px.mk (Fin px) (Fin py) (Fin pw) (Fin ph) /\
    round_half_up (px * 800) = 100%Z /\ round_half_up (pw * 800) = 200%Z /\
    round_half_up (py * 600) = 100%Z /\ round_half_up (ph * 600) = 100%Z.
Proof.
  split.
  { exists 100%Z, 100%Z, 200%Z, 100%Z. repeat split; try reflexivity; discriminate. }
  destruct (export_percent_round_trip demo_image (demo_box "a" "total")
              100 100 200 100)
    as (_ & _ & _ & px & py & pw & ph & E & _ & _ & _ & _ & _ & Tx & Ty);
    try discriminate; try reflexivity.
  exists px, py, pw, ph. split; [exact E|].
  destruct Tx as [T1 T2]; [reflexivity|]. destruct Ty as [T3 T4]; [reflexivity|].
  repeat split; assumption.
Defined.

(** * Panning needs Space, and a drag commits its rectangle *)

Lemma flags_fit env s :
  isPanning (fitCanvasToContainer env s) = isPanning s /\
  spaceDown (fitCanvasToContainer env s) = spaceDown s.
Proof.
  unfold fitCanvasToContainer.
  destruct (canvasRef s), (containerRef s), (imageRef s); try (split; reflexivity).
  cbv zeta.
  match goal with |- context [if ?t then s else _] => destruct t end; split; reflexivity.
Qed.

Lemma flags_wheelHandler Math_exp env e s :
  isPanning (wheelHandler Math_exp env e s) = isPanning s /\
  spaceDown (wheelHandler Math_exp env e s) = spaceDown s.
Proof.
  unfold wheelHandler, zoomAt.
  destruct (canvasRef s); [|split; reflexivity].
  destruct (ctrlKey e || metaKey e).
  - match goal with |- context [if ?t then s else _] => destruct t end; split; reflexivity.
  - destruct (spaceDown s) eqn:E; [split; [reflexivity | exact E]|].
    destruct (containerRef s); split; try reflexivity; exact E.
Qed.

Lemma endInteractions_not_panning uuid s : isPanning (endInteractions uuid s) = false.
Proof.
  unfold endInteractions. cbn [isDrawing startPt currentPt set_isPanning].
  destruct (isDrawing s), (startPt s), (currentPt s); cbv zeta;
    try destruct ((_ >? _) && (_ >? _)); reflexivity.
Qed.

Lemma panning_step Math_exp env ev s :
  (isPanning s = true -> spaceDown s = true) ->
  isPanning (step Math_exp env ev s) = true -> spaceDown (step Math_exp env ev s) = true.
Proof.
  intros H. destruct ev; cbn [step].
  - unfold onMouseDown. destruct (imageRef s); [|exact H].
    destruct (spaceDown s) eqn:E.
    + cbn [canvasRef set_isPanning]. destruct (canvasRef s); intros _; exact E.
    + cbn. intros Hp. specialize (H Hp). discriminate.
  - unfold onMouseMove. destruct (isPanning s) eqn:E.
    + destruct (canvasRef s); cbn; intros _; apply H; reflexivity.
    + destruct (isDrawing s); cbn; intros; congruence.
  - unfold onMouseUp. rewrite endInteractions_not_panning. discriminate.
  - unfold onMouseLeave. rewrite endInteractions_not_panning. discriminate.
  - destruct (flags_wheelHandler Math_exp env e s) as [-> ->]. exact H.
  - unfold onKeyDown. destruct (code =? "Space")%string; [reflexivity | exact H].
  - unfold onKeyUp. destruct (code =? "Space")%string; [discriminate | exact H].
  - exact H.
  - exact H.
  - exact H.
  - exact H.
  - exact H.
  - exact H.
  - unfold resetView. cbn [isPanning spaceDown set_pan set_zoom].
    destruct (flags_fit env (set_imageRef (Some img) s)) as [-> ->]. exact H.
  - exact H.
  - destruct (containerRef s); exact H.
  - destruct (flags_fit env s) as [-> ->]. exact H.
Qed.

Lemma reachable_panning_space Math_exp s :
  reachable Math_exp s -> isPanning s = true -> spaceDown s = true.
Proof.
  induction 1 as [canvas container | env ev s _ IH].
  - discriminate.
  - apply panning_step, IH.
Qed.

(** Panning needs Space: in every reachable state, panning is in progress
    only while Space is held, so without Space a mouse move changes neither
    pan, zoom, canvas nor annotations; and in any state, once Space or the
    mouse button is released a mouse move leaves the pan where it was. *)
Theorem panning_needs_space (Math_exp : Q -> Q) (s : State) :
  reachable Math_exp s ->
  (isPanning s = true -> spaceDown s = true) /\
  (spaceDown s = false ->
   forall env e, view_untouched s (onMouseMove env e s) /\
                 boxes (onMouseMove env e s) = boxes s) /\
  (forall env e, panRef (onMouseMove env e (onKeyUp "Space" s)) = panRef s) /\
  (forall env e uuid, panRef (onMouseMove env e (endInteractions uuid s)) = panRef s).
Proof.
  intros Hr. pose proof (reachable_panning_space Math_exp s Hr) as H.
  split; [exact H|]. split; [|split].
  - intros Hsp env e. unfold onMouseMove.
    destruct (isPanning s) eqn:E; [rewrite H in Hsp by reflexivity; discriminate|].
    destruct (isDrawing s); repeat split.
  - intros env e. unfold onMouseMove, onKeyUp. cbn.
    destruct (isDrawing s); reflexivity.
  - intros env e uuid. unfold onMouseMove.
    rewrite endInteractions_not_panning.
    assert (E : panRef (endInteractions uuid s) = panRef s).
    { unfold endInteractions. cbn [isDrawing startPt currentPt set_isPanning].
      destruct (isDrawing s), (startPt s), (currentPt s); cbv zeta;
        try destruct ((_ >? _) && (_ >? _)); reflexivity. }
    destruct (isDrawing (endInteractions uuid s)); cbn [negb]; [|exact E].
    cbn [panRef set_currentPt]. exact E.
Qed.

(** A whole drag: in a reachable state with an image loaded and Space not
    held, a mouse down at [p], a mouse move to [q] and a mouse up commit
    exactly the rectangle spanned by the natural points of [p] and [q] when
    it is more than 5 wide and more than 5 high, and nothing otherwise,
    whatever gesture was left over before; the gesture is over afterwards and
    pan, zoom and canvas are as before. *)
Theorem drag_commits_rectangle (Math_exp : Q -> Q) env (p q : MouseEvent)
  (uuid : string) (s : State) img :
  reachable Math_exp s -> imageRef s = Some img -> spaceDown s = false ->
  let a := eventToImageCoords env p s in
  let b := eventToImageCoords env q s in
  let x := Math_min (Pt.x a) (Pt.x b) in
  let y := Math_min (Pt.y a) (Pt.y b) in
  let w := Math_abs (Pt.x b - Pt.x a) in
  let h := Math_abs (Pt.y b - Pt.y a) in
  let s3 := onMouseUp uuid (onMouseMove env q (onMouseDown env p s)) in
  boxes s3 = (if (w >? Fin 5) && (h >? Fin 5)
              then boxes s ++ [Box.mk uuid x y w h EmptyString]
              else boxes s) /\
  isDrawing s3 = false /\ startPt s3 = None /\ currentPt s3 = None /\
  view_untouched s s3.
Proof.
  intros Hr Hi Hsp a b x y w h s3.
  assert (Hpan : isPanning s = false).
  { destruct (isPanning s) eqn:E; [|reflexivity].
    rewrite (reachable_panning_space Math_exp s Hr E) in Hsp. discriminate. }
  assert (E3 : s3 = endInteractions uuid
                 (set_currentPt (Some b)
                    (set_isDrawing true
                       (set_currentPt (Some a) (set_startPt (Some a) s))))).
  { unfold s3, onMouseUp, onMouseDown. rewrite Hi, Hsp.
    unfold onMouseMove.
    cbn [isPanning isDrawing set_isDrawing set_currentPt set_startPt negb].
    rewrite Hpan. reflexivity. }
  rewrite E3. unfold endInteractions.
  cbn [isDrawing startPt currentPt set_isPanning set_currentPt set_startPt set_isDrawing].
  cbv zeta. fold x. fold y. fold w. fold h.
  destruct ((w >? Fin 5) && (h >? Fin 5)); repeat split.
Qed.

Lemma panning_needs_space_witness :
  let s := onMouseDown demo_env (mkMouseEvent 100 120)
             (step demo_exp demo_env (KeyDown "Space") demo_zoomed) in
  reachable demo_exp s /\ isPanning s = true /\ spaceDown s = true.
Proof.
  intros s.
  assert (H : reachable demo_exp s).
  { apply (reachable_step demo_exp demo_env (MouseDown (mkMouseEvent 100 120))).
    do 3 apply reachable_step. apply reachable_initial. }
  split; [exact H|]. split; [reflexivity|].
  exact (proj1 (panning_needs_space demo_exp s H) eq_refl).
Defined.

Lemma drag_commits_rectangle_witness :
  reachable demo_exp demo_loaded /\ imageRef demo_loaded = Some demo_image /\
  spaceDown demo_loaded = false /\
  boxes (onMouseUp "u1" (onMouseMove demo_env (mkMouseEvent 150 100)
                           (onMouseDown demo_env (mkMouseEvent 50 50) demo_loaded)))
  = [demo_box "u1" ""].
Proof.
  assert (H : reachable demo_exp demo_loaded).
  { apply reachable_step. apply reachable_initial. }
  split; [exact H|]. split; [reflexivity|]. split; [reflexivity|].
  exact (proj1 (drag_commits_rectangle demo_exp demo_env (mkMouseEvent 50 50)
                  (mkMouseEvent 150 100) "u1" demo_loaded demo_image
                  H eq_refl eq_refl)).
Defined.
